(** * minikube: [node add] and the PowerShell execution helpers

    A shallow embedding of
    - [cmd/minikube/cmd] : [parseOSFlag], [validateOS], the flag defaults
      registered by [init] and the [Run] function of [nodeAddCmd];
    - [pkg/minikube/node/powershell.go] : [init], [cmdOut], [cmd].

    Go strings are byte strings and are modelled by [string]; Go's [int] is
    a 64-bit two's complement integer, modelled by [Z] with the wrap-around
    of [+] written out; the [map[string]string] of [parseOSFlag] is a
    [gmap string string]. *)

From Stdlib Require Import ZArith Ascii DecimalString DecimalN.
From stdpp Require Import base strings list gmap.

Local Open Scope Z_scope.

(** ** Go's [int] *)

Module GoInt.

Definition maxInt : Z := 2 ^ 63 - 1.
Definition minInt : Z := - 2 ^ 63.

(** Two's complement wrap-around of a mathematical integer to 64 bits. *)
Definition wrap (z : Z) : Z := (z + 2 ^ 63) mod 2 ^ 64 - 2 ^ 63.

(** [a + b] on [int]. *)
Definition add (a b : Z) : Z := wrap (a + b).

(** [len(s)] of a slice. *)
Definition len {A} (l : list A) : Z := Z.of_nat (length l).

End GoInt.

(** ** The functions of package [strings] the sources call *)

Module strings.

(** [strings.Split(s, sep)] for a one-byte separator: the substrings
    between the occurrences of [sep]; a string without [sep] (the empty
    string too) gives the one-element slice holding it. *)
Fixpoint Split (s : string) (sep : ascii) : list string :=
  match s with
  | EmptyString => [EmptyString]
  | String c rest =>
      if decide (c = sep) then EmptyString :: Split rest sep
      else match Split rest sep with
           | [] => [String c EmptyString]
           | tok :: toks => String c tok :: toks
           end
  end.

(** [strings.Join(elems, sep)]. *)
Fixpoint Join (elems : list string) (sep : string) : string :=
  match elems with
  | [] => ""
  | [e] => e
  | e :: rest => e +:+ sep +:+ Join rest sep
  end.

(** [strings.Count(s, sep)] for a one-byte [sep]; used in statements. *)
Fixpoint Count (s : string) (sep : ascii) : nat :=
  match s with
  | EmptyString => 0%nat
  | String c rest => ((if decide (c = sep) then 1 else 0) + Count rest sep)%nat
  end.

End strings.

(** ** Errors

    [errors.Errorf] and [errors.New] build an error out of its message; the
    tests compare errors through [Error()], the message. *)

Record error : Type := Errorf { Error : string }.

Global Instance error_eq_dec : EqDecision error.
Proof. solve_decision. Defined.

(** ** Package [node]: the declarations [cmd] imports *)

Module node.

(** Modelled from the spec: [node.ValidOS] is declared in
    pkg/minikube/node, outside the sources at hand. The spec gives the
    supported-kind set as {linux, windows}, and node_add_test.go expects
    the options to be printed as "linux, windows". *)
Definition ValidOS : list string := ["linux"; "windows"].

(** Decimal digits of a natural number ("0" for zero). *)
Definition decimal (n : N) : string :=
  NilZero.string_of_uint (N.to_uint n).

(** Modelled from the spec: [node.Name] (the spec's formatName) is
    declared in pkg/minikube/node, outside the sources at hand. The spec
    says the name encodes the id as its numeric suffix; the letter and the
    two-digit padding are those of minikube's node names (m02, m03, ...).
    A negative index keeps its sign, as Go's %d prints it. *)
Definition Name (index : Z) : string :=
  if index <? 0 then "m-" +:+ decimal (Z.to_N (- index))
  else if index <? 10 then "m0" +:+ decimal (Z.to_N index)
  else "m" +:+ decimal (Z.to_N index).

(** The string after the leading letter of a node name. *)
Definition TrimPrefix_m (name : string) : string :=
  match name with
  | String "m" rest => rest
  | _ => name
  end.

(** Modelled from the spec: [node.ID] (the spec's extractId) is declared
    in pkg/minikube/node, outside the sources at hand. It reads the
    numeric suffix of the name; a name that does not encode a parsable id
    (no digits, a character that is not a digit, a number that does not
    fit an int) gives an error. *)
Definition ID (name : string) : Z * option error :=
  match TrimPrefix_m name with
  | EmptyString => (-1, Some (Errorf ("invalid node name: " +:+ name)))
  | digits =>
      match NilEmpty.uint_of_string digits with
      | Some d =>
          let i := Z.of_N (N.of_uint d) in
          if i <=? GoInt.maxInt then (i, None)
          else (-1, Some (Errorf ("node id out of range: " +:+ name)))
      | None => (-1, Some (Errorf ("invalid node name: " +:+ name)))
      end
  end.

End node.

(** ** Package [cmd]: the [--os] flag *)

(** [validateOS]: [nil] for a member of [node.ValidOS()], otherwise the
    error naming the rejected value and the valid options. *)
Definition validateOS (os : string) : option error :=
  let validOptions := node.ValidOS in
  if existsb (fun validOS => bool_decide (os = validOS)) validOptions
  then None
  else Some (Errorf ("Invalid OS: " +:+ os +:+ ". Valid OS are: "
                     +:+ strings.Join validOptions ", ")).

(** Reading a Go map: the zero value when the key is absent. *)
Definition index (m : gmap string string) (k : string) : string :=
  default "" (m !! k).

(** The loop of [parseOSFlag] over [parts]: every part is split on "=",
    a part that does not give two tokens ends the function with the
    error, the others are stored in [osInfo]. *)
Fixpoint parseOSFlag_loop (osFlagValue : string) (parts : list string)
    (osInfo : gmap string string) : gmap string string + error :=
  match parts with
  | [] => inl osInfo
  | part :: rest =>
      match strings.Split part "=" with
      | [k; v] => parseOSFlag_loop osFlagValue rest (<[k := v]> osInfo)
      | _ => inr (Errorf ("Invalid format for --os flag: " +:+ osFlagValue))
      end
  end.

(** [parseOSFlag]: the values of the keys "os" and "version" and the
    error, as Go's three results. *)
Definition parseOSFlag (osFlagValue : string) : string * string * option error :=
  let parts := strings.Split osFlagValue "," in
  let osInfo : gmap string string := <["os" := "linux"]> (<["version" := ""]> ∅) in
  match parseOSFlag_loop osFlagValue parts osInfo with
  | inr err => ("", "", Some err)
  | inl osInfo =>
      let osInfo :=
        if bool_decide (index osInfo "os" = "windows")
           && bool_decide (index osInfo "version" = "")
        then <["version" := "2022"]> osInfo
        else osInfo in
      (index osInfo "os", index osInfo "version", None)
  end.

(** ** Package [config]: the cluster configuration *)

Module config.

Record Node : Type := {
  Name : string;
  Worker : bool;
  ControlPlane : bool;
  KubernetesVersion : string;
}.

(** The fields of [config.ClusterConfig] that [Run] reads or writes;
    [KubernetesConfig_KubernetesVersion] is
    [cc.KubernetesConfig.KubernetesVersion]. *)
Record ClusterConfig : Type := {
  cc_Name : string;
  Driver : string;
  Memory : Z;
  MultiNodeRequested : bool;
  KubernetesConfig_KubernetesVersion : string;
  Nodes : list Node;
}.

Definition set_Memory (m : Z) (cc : ClusterConfig) : ClusterConfig :=
  {| cc_Name := cc_Name cc; Driver := Driver cc; Memory := m;
     MultiNodeRequested := MultiNodeRequested cc;
     KubernetesConfig_KubernetesVersion := KubernetesConfig_KubernetesVersion cc;
     Nodes := Nodes cc |}.

Definition set_Nodes (ns : list Node) (cc : ClusterConfig) : ClusterConfig :=
  {| cc_Name := cc_Name cc; Driver := Driver cc; Memory := Memory cc;
     MultiNodeRequested := MultiNodeRequested cc;
     KubernetesConfig_KubernetesVersion := KubernetesConfig_KubernetesVersion cc;
     Nodes := ns |}.

End config.

(** ** Package [cmd]: the flags of [node add] *)

(** The package-level variables bound to the flags. *)
Record Flags : Type := {
  cpNode : bool;
  workerNode : bool;
  deleteNodeOnFailure : bool;
  osType : string;
}.

(** The defaults [init] registers: --control-plane false, --worker true,
    --delete-on-failure false, --os "linux". *)
Definition init : Flags :=
  {| cpNode := false; workerNode := true; deleteNodeOnFailure := false;
     osType := "linux" |}.

(** ** What [Run] calls outside these sources

    The collaborators of [Run] that are declared in other packages (or in
    other files of package [cmd]) are parameters of the model. *)
Record Env : Type := {
  (** [validateWindowsOSVersion], another file of package [cmd]. *)
  validateWindowsOSVersion : string -> option error;
  (** [node.ID] and [node.Name]. *)
  node_ID : string -> Z * option error;
  node_Name : Z -> string;
  (** [driver.BareMetal], [config.IsHA], [cni.IsDisabled]. *)
  driver_BareMetal : string -> bool;
  config_IsHA : config.ClusterConfig -> bool;
  cni_IsDisabled : config.ClusterConfig -> bool;
  (** [viper.GetString(memory)]: the operator's --memory, "" when unset. *)
  viper_GetString_memory : string;
  (** [node.Add(cc, n, delOnFail)]: what it leaves behind the pointer [cc]
      and its error. *)
  node_Add : config.ClusterConfig -> config.Node -> bool ->
             config.ClusterConfig * option error;
  (** [maybeDeleteAndRetry(cmd, *cc, n, nil, err)]: its error. *)
  maybeDeleteAndRetry : config.ClusterConfig -> config.Node -> error -> option error;
  (** [config.SaveProfile(name, cc)]: its error. *)
  config_SaveProfile : string -> config.ClusterConfig -> option error;
  (** Whether a call of [out.FailureT] returns to [Run]. [Run] has no
      [return] after its two calls of [out.FailureT], so it goes on exactly
      when the call returns. The functions of package [out] print and
      return ([Run] uses the values computed after [out.ErrLn] and
      [out.Step]); ending the process is what package [exit] is for. *)
  out_FailureT_returns : bool;
}.

(** ** Effects of [Run] *)

(** Where the process can end: the failure kinds of the add workflow. *)
Inductive ErrorKind : Type :=
  | MalformedSpec | InvalidOS | InvalidWindowsVersion
  | UnsupportedRole | DriverIncapable | NotHAConfigured
  | GuestNodeAddFailed | HostSaveProfileFailed.

Global Instance ErrorKind_eq_dec : EqDecision ErrorKind.
Proof. solve_decision. Defined.

(** The [reason] handed to package [exit]. *)
Inductive reason : Type :=
  | reason_Usage | reason_GuestNodeAdd | reason_HostSaveProfile.

(** What [Run] prints and which collaborators it calls, in order. *)
Inductive event : Type :=
  | out_FailureT (msg : string)
  | out_ErrLn_lastID (lastID : Z) (err : error)
  | out_Step_Adding (name cluster : string) (roles : list string)
  | warnAboutMultiNodeCNI
  | register_SetStep_InitialSetup
  | call_node_Add (cc : config.ClusterConfig) (n : config.Node) (delOnFail : bool)
  | call_maybeDeleteAndRetry (cc : config.ClusterConfig) (n : config.Node) (err : error)
  | call_SaveProfile (name : string) (cc : config.ClusterConfig)
  | out_Step_Success (name cluster : string).

(** The state [Run] works on: the stored profile, the working copy behind
    the pointer [cc] (none before [mustload.Healthy] has returned) and
    the events so far. *)
Record state : Type := {
  stored : config.ClusterConfig;
  loaded : option config.ClusterConfig;
  trace : list event;
}.

Inductive outcome (A : Type) : Type :=
  | Done (a : A)
  | Exit (kind : ErrorKind) (r : reason) (msg : string)
  | Panic.
Arguments Done {A} a.
Arguments Exit {A} kind r msg.
Arguments Panic {A}.

Definition M (A : Type) : Type := state -> outcome A * state.

Definition ret {A} (a : A) : M A := fun s => (Done a, s).

Definition bind {A B} (m : M A) (k : A -> M B) : M B :=
  fun s =>
    match m s with
    | (Done a, s') => k a s'
    | (Exit kind r msg, s') => (Exit kind r msg, s')
    | (Panic, s') => (Panic, s')
    end.

Notation "x <- m ;; k" := (bind m (fun x => k))
  (at level 100, m at next level, right associativity).
Notation "m ;;; k" := (bind m (fun _ => k))
  (at level 100, right associativity).

Definition emit (e : event) : M unit :=
  fun s => (Done tt, {| stored := stored s; loaded := loaded s;
                        trace := trace s ++ [e] |}).

(** [exit.Message] and [exit.Error] end the process. *)
Definition exit_Message {A} (kind : ErrorKind) (r : reason) (msg : string) : M A :=
  fun s => (Exit kind r msg, s).
Definition exit_Error {A} (kind : ErrorKind) (r : reason) (msg : string) (err : error) : M A :=
  fun s => (Exit kind r (msg +:+ ": " +:+ Error err), s).

(** [out.FailureT]: prints, and ends [Run] only in an environment where
    the call does not return. *)
Definition FailureT (E : Env) (kind : ErrorKind) (msg : string) : M unit :=
  emit (out_FailureT msg) ;;;
  if out_FailureT_returns E then ret tt
  else fun s => (Exit kind reason_Usage msg, s).

(** [co := mustload.Healthy(...); cc := co.Config]. *)
Definition mustload_Healthy : M config.ClusterConfig :=
  fun s => (Done (stored s),
            {| stored := stored s; loaded := Some (stored s); trace := trace s |}).

(** Reading and writing through the pointer [cc]. *)
Definition get_cc : M config.ClusterConfig :=
  fun s => match loaded s with
           | Some cc => (Done cc, s)
           | None => (Panic, s)
           end.
Definition put_cc (cc : config.ClusterConfig) : M unit :=
  fun s => (Done tt, {| stored := stored s; loaded := Some cc; trace := trace s |}).

(** [config.SaveProfile]: on success the profile is stored. *)
Definition SaveProfile (E : Env) (name : string) (cc : config.ClusterConfig) : M (option error) :=
  emit (call_SaveProfile name cc) ;;;
  match config_SaveProfile E name cc with
  | Some err => ret (Some err)
  | None => fun s => (Done None, {| stored := cc; loaded := loaded s; trace := trace s |})
  end.

(** [cc.Nodes[len(cc.Nodes)-1]]: indexing an empty slice panics. *)
Definition last_Node (nodes : list config.Node) : M config.Node :=
  match last nodes with
  | Some n => ret n
  | None => fun s => (Panic, s)
  end.

Definition when_err (err : option error) (k : error -> M unit) : M unit :=
  match err with
  | Some e => k e
  | None => ret tt
  end.

(** ** [nodeAddCmd.Run] *)

(** Lines 103-109: the name of the new node, with the id following that
    of the last existing node. *)
Definition newNodeName (E : Env) (nodes : list config.Node) : M string :=
  lastNode <- last_Node nodes ;;
  let '(lastID, err) := node_ID E (config.Name lastNode) in
  lastID <- match err with
            | Some err =>
                let lastID := GoInt.len nodes in
                emit (out_ErrLn_lastID lastID err) ;;; ret lastID
            | None => ret lastID
            end ;;
  ret (node_Name E (GoInt.add lastID 1)).

Definition Run (E : Env) (fl : Flags) : M unit :=
  let '(osType, windowsVersion, err) := parseOSFlag (osType fl) in
  when_err err (fun err => exit_Message MalformedSpec reason_Usage (Error err)) ;;;
  when_err (validateOS osType)
    (fun err => exit_Message InvalidOS reason_Usage (Error err)) ;;;
  (if bool_decide (windowsVersion <> "") then
     when_err (validateWindowsOSVersion E windowsVersion)
       (fun err => exit_Message InvalidWindowsVersion reason_Usage (Error err))
   else ret tt) ;;;
  (if bool_decide (osType = "windows") && cpNode fl then
     exit_Message UnsupportedRole reason_Usage
       "Windows node cannot be used as control-plane nodes."
   else ret tt) ;;;
  cc <- mustload_Healthy ;;
  (if driver_BareMetal E (config.Driver cc) then
     FailureT E DriverIncapable "none driver does not support multi-node clusters"
   else ret tt) ;;;
  (if cpNode fl && negb (config_IsHA E cc) then
     FailureT E NotHAConfigured
       "Adding a control-plane node to a non-HA (non-multi-control plane) cluster is not currently supported. Please first delete the cluster and use 'minikube start --ha' to create new one."
   else ret tt) ;;;
  let roles := (if workerNode fl then ["worker"] else [])
               ++ (if cpNode fl then ["control-plane"] else []) in
  name <- newNodeName E (config.Nodes cc) ;;
  emit (out_Step_Adding name (config.cc_Name cc) roles) ;;;
  let n := {| config.Name := name;
              config.Worker := workerNode fl;
              config.ControlPlane := cpNode fl;
              config.KubernetesVersion := config.KubernetesConfig_KubernetesVersion cc |} in
  (if GoInt.len (config.Nodes cc) =? 1 then
     (if bool_decide (viper_GetString_memory E = "") then
        put_cc (config.set_Memory 2200 cc)
      else ret tt) ;;;
     cc <- get_cc ;;
     if negb (config.MultiNodeRequested cc) || cni_IsDisabled E cc then
       emit warnAboutMultiNodeCNI
     else ret tt
   else ret tt) ;;;
  emit register_SetStep_InitialSetup ;;;
  cc <- get_cc ;;
  emit (call_node_Add cc n (deleteNodeOnFailure fl)) ;;;
  let '(cc', err) := node_Add E cc n (deleteNodeOnFailure fl) in
  put_cc cc' ;;;
  when_err err (fun err =>
    emit (call_maybeDeleteAndRetry cc' n err) ;;;
    when_err (maybeDeleteAndRetry E cc' n err)
      (fun err => exit_Error GuestNodeAddFailed reason_GuestNodeAdd "failed to add node" err)) ;;;
  cc <- get_cc ;;
  err <- SaveProfile E (config.cc_Name cc) cc ;;
  when_err err (fun err =>
    exit_Error HostSaveProfileFailed reason_HostSaveProfile "failed to save config" err) ;;;
  emit (out_Step_Success name (config.cc_Name cc)).

(** ** Package [node], file powershell.go *)

Module powershell.

(** The errors of package os/exec: the command could not be started
    ([*exec.Error] and the like), or it ran and exited with a non-zero
    status ([*exec.ExitError]; with [cmd.Run] and [cmd.Stderr] set, the
    error holds the status only). *)
Inductive exec_error : Type :=
  | exec_Error (msg : string)
  | exec_ExitError (code : Z).

(** The errors [cmdOut] and its callers handle: the three sentinels the
    file declares with [errors.New], and what os/exec reports. A sentinel
    is a value of this package; os/exec cannot return one. *)
Inductive error : Type :=
  | ErrPowerShellNotFound
  | ErrNotAdministrator
  | ErrNotInstalled
  | exec_err (e : exec_error).

Global Instance exec_error_eq_dec : EqDecision exec_error.
Proof. solve_decision. Defined.
Global Instance error_eq_dec : EqDecision error.
Proof. solve_decision. Defined.

(** What [cmd.Run()] leaves: the bytes written to [cmd.Stdout] and to
    [cmd.Stderr], and its error. *)
Record Completed : Type := {
  Stdout : string;
  Stderr : string;
  err : option exec_error;
}.

(** The host: [exec.LookPath] and the run of [exec.Command(path, args...)]. *)
Record Host : Type := {
  exec_LookPath : string -> option string;
  cmd_Run : string -> list string -> Completed;
}.

Inductive event : Type :=
  | klog_Infof (line : string)
  | call_cmd_Run (path : string) (args : list string).

(** [init]: the package variable [powershell]; [exec.LookPath] gives the
    empty path along with its error, and the error is dropped. *)
Definition init (h : Host) : string :=
  match exec_LookPath h "powershell.exe" with
  | Some path => path
  | None => ""
  end.

(** [cmdOut]: the two results and the events in order. *)
Definition cmdOut (h : Host) (powershell : string) (args : list string)
    : (string * option error) * list event :=
  let args := ["-NoProfile"; "-NonInteractive"] ++ args in
  let e1 := klog_Infof ("[executing ==>] : " +:+ powershell +:+ " "
                        +:+ strings.Join args " ") in
  let done := cmd_Run h powershell args in
  let e2 := call_cmd_Run powershell args in
  let stdout := Stdout done in
  let stderr := Stderr done in
  let e3 := klog_Infof ("[stdout =====>] : " +:+ stdout) in
  let e4 := klog_Infof ("[stderr =====>] : " +:+ stderr) in
  ((stdout, exec_err <$> err done), [e1; e2; e3; e4]).

(** [cmd]: the error of [cmdOut]. *)
Definition cmd (h : Host) (powershell : string) (args : list string)
    : option error * list event :=
  let '((_, err), evs) := cmdOut h powershell args in (err, evs).

(** A host without powershell.exe: the lookup fails, and running the
    command with the empty path fails in os/exec ("exec: no command"). *)
Definition host_without_powershell : Host :=
  {| exec_LookPath := fun _ => None;
     cmd_Run := fun path _ =>
       if bool_decide (path = "")
       then {| Stdout := ""; Stderr := ""; err := Some (exec_Error "exec: no command") |}
       else {| Stdout := ""; Stderr := ""; err := None |} |}.

(** A host on which every command writes [out] and [errout] and exits
    with status [code]. *)
Definition host_fixed (out errout : string) (code : Z) : Host :=
  {| exec_LookPath := fun _ => Some "C:\Windows\System32\WindowsPowerShell\v1.0\powershell.exe";
     cmd_Run := fun _ _ =>
       {| Stdout := out; Stderr := errout;
          err := if code =? 0 then None else Some (exec_ExitError code) |} |}.

End powershell.

(** ** Package [node], file powershell.go: the commands over ssh *)

Module powershell_ssh.

(** The errors of package ssh: a session could not be opened, or the
    remote command failed ([*ssh.ExitError], [*ssh.ExitMissingError]). *)
Inductive ssh_error : Type :=
  | ssh_session_error (msg : string)
  | ssh_ExitError (status : Z)
  | ssh_ExitMissingError.

Global Instance ssh_error_eq_dec : EqDecision ssh_error.
Proof. solve_decision. Defined.

(** What [session.Run(command)] leaves: the bytes written to
    [session.Stdout] and to [session.Stderr], and its error. *)
Record Remote : Type := {
  Stdout : string;
  Stderr : string;
  err : option ssh_error;
}.

(** A [*ssh.Client]: the error of [client.NewSession()], if any, and the
    run of a command line on a session of that client. *)
Record Client : Type := {
  NewSession : option ssh_error;
  session_Run : string -> Remote;
}.

Inductive event : Type :=
  | call_NewSession
  | klog_Infof (line : string)
  | call_session_Run (command : string)
  | call_session_Close.

Global Instance event_eq_dec : EqDecision event.
Proof. solve_decision. Defined.

(** The double quote. *)
Definition dquote : string := String (ascii_of_nat 34) EmptyString.

(** The command line of [CmdOutSSH]:
    [fmt.Sprintf("powershell -NoProfile -NonInteractive -Command \"%s\"", script)]. *)
Definition command_line (script : string) : string :=
  "powershell -NoProfile -NonInteractive -Command " +:+ dquote +:+ script +:+ dquote.

(** [CmdOutSSH]: the two results and the events in order. A failure of
    [client.NewSession()] is returned at once; otherwise the deferred
    [session.Close()] runs when the function returns. *)
Definition CmdOutSSH (client : Client) (script : string)
    : (string * option ssh_error) * list event :=
  match NewSession client with
  | Some err => (("", Some err), [call_NewSession])
  | None =>
      let command := command_line script in
      let e1 := klog_Infof ("[executing] : " +:+ command) in
      let done := session_Run client command in
      let stdout := Stdout done in
      let stderr := Stderr done in
      let e3 := klog_Infof ("[stdout =====>] : " +:+ stdout) in
      let e4 := klog_Infof ("[stderr =====>] : " +:+ stderr) in
      ((stdout, err done),
       [call_NewSession; e1; call_session_Run command; e3; e4; call_session_Close])
  end.

(** [cmdSSH]: the arguments joined by a space are the script; the error
    of [CmdOutSSH]. *)
Definition cmdSSH (client : Client) (args : list string)
    : option ssh_error * list event :=
  let script := strings.Join args " " in
  let '((_, err), evs) := CmdOutSSH client script in (err, evs).

(** The commands run and the number of sessions closed in a list of
    events. *)
Definition commands_run (evs : list event) : list string :=
  omap (fun e => match e with call_session_Run c => Some c | _ => None end) evs.

Definition sessions_closed (evs : list event) : nat :=
  length (List.filter (fun e => bool_decide (e = call_session_Close)) evs).


Definition client_fixed (out errout : string) (e : option ssh_error) : Client :=
  {| NewSession := None;
     session_Run := fun _ => {| Stdout := out; Stderr := errout; err := e |} |}.

End powershell_ssh.

(** ** Definitions used to state the properties *)

(** The cut of a string at the first occurrence of a byte: what is before
    and what is after it, when it occurs. *)
Fixpoint cut_first (s : string) (sep : ascii) : option (string * string) :=
  match s with
  | EmptyString => None
  | String c rest =>
      if decide (c = sep) then Some (EmptyString, rest)
      else match cut_first rest sep with
           | Some (before, after) => Some (String c before, after)
           | None => None
           end
  end.

(** The well-formedness of a pair in the words of the specification: the
    pair splits into exactly two non-empty tokens on the first "=". *)
Definition spec_pair_well_formed (part : string) : bool :=
  match cut_first part "=" with
  | Some (key, value) =>
      negb (bool_decide (key = "")) && negb (bool_decide (value = ""))
  | None => false
  end.

(** The well-formedness [parseOSFlag] checks: exactly one "=" in the part. *)
Definition one_eq_sign (part : string) : Prop :=
  strings.Count part "=" = 1%nat.

Global Instance one_eq_sign_dec part : Decision (one_eq_sign part).
Proof. unfold one_eq_sign. apply _. Defined.

(** Modelled from the spec: [validateWindowsOSVersion] is declared in a
    file of package [cmd] outside the sources at hand. The spec says it
    validates the version against a supported-Windows-version set and
    fails on an unsupported one; the set is a parameter, and the spec
    does not give the wording of the message. *)
Definition validateWindowsOSVersion_in (supported : list string)
    (osVersion : string) : option error :=
  if bool_decide (osVersion ∈ supported) then None
  else Some (Errorf ("Invalid Windows Server OS Version: " +:+ osVersion)).

(** A sample environment: node names as in package [node], Windows Server
    2019 and 2022 supported, the "none" driver the bare-metal one, a
    cluster HA when it has more than one control-plane node, provisioning
    and saving that succeed, [node.Add] appending the node to [cc.Nodes],
    and [out.FailureT] printing and returning. *)
Definition sample_env : Env :=
  {| validateWindowsOSVersion := validateWindowsOSVersion_in ["2019"; "2022"];
     node_ID := node.ID;
     node_Name := node.Name;
     driver_BareMetal := fun d => bool_decide (d = "none");
     config_IsHA := fun cc =>
       (1 <? length (filter (fun n => config.ControlPlane n = true) (config.Nodes cc)))%nat;
     cni_IsDisabled := fun _ => false;
     viper_GetString_memory := "";
     node_Add := fun cc n _ =>
       (config.set_Nodes (config.Nodes cc ++ [n]) cc, None);
     maybeDeleteAndRetry := fun _ _ err => Some err;
     config_SaveProfile := fun _ _ => None;
     out_FailureT_returns := true |}.

(** A running one-node cluster: the primary control-plane node. *)
Definition primary : config.Node :=
  {| config.Name := "m01"; config.Worker := true; config.ControlPlane := true;
     config.KubernetesVersion := "v1.31.0" |}.

Definition single_node_cluster : config.ClusterConfig :=
  {| config.cc_Name := "minikube"; config.Driver := "hyperv";
     config.Memory := 4000; config.MultiNodeRequested := false;
     config.KubernetesConfig_KubernetesVersion := "v1.31.0";
     config.Nodes := [primary] |}.

Definition start_state (cc : config.ClusterConfig) : state :=
  {| stored := cc; loaded := None; trace := [] |}.

(** The [call_node_Add] events of a trace. *)
Definition added_nodes (tr : list event) : list config.Node :=
  omap (fun e => match e with call_node_Add _ n _ => Some n | _ => None end) tr.

(** A part whose key is neither "os" nor "version". *)
Definition other_key (part : string) : Prop :=
  exists k v, strings.Split part "=" = [k; v] /\ k <> "os" /\ k <> "version".

(** Hoare triples over [M]: from a state that satisfies [P], the outcome
    and the final state of [m] satisfy [Q]. *)
Definition hoare {A} (P : state -> Prop) (m : M A)
    (Q : outcome A -> state -> Prop) : Prop :=
  forall s, P s -> Q (fst (m s)) (snd (m s)).

(** The postcondition of the first half of a [bind]: [R] when it is
    done, [Q] when the process has ended. *)
Definition post_bind {A B} (R : A -> state -> Prop)
    (Q : outcome B -> state -> Prop) : outcome A -> state -> Prop :=
  fun o s =>
    match o with
    | Done a => R a s
    | Exit kind r msg => Q (Exit kind r msg) s
    | Panic => Q Panic s
    end.

(** The state [s'] extends the trace of [s] by events that satisfy [P]. *)
Definition extends_by (P : event -> Prop) (s s' : state) : Prop :=
  exists evs, trace s' = trace s ++ evs /\ Forall P evs.

(** The roles of every node handed to [node.Add] are those of the flags. *)
Definition roles_of (fl : Flags) (e : event) : Prop :=
  match e with
  | call_node_Add _ n _ =>
      config.Worker n = workerNode fl /\ config.ControlPlane n = cpNode fl
  | _ => True
  end.

(** The failures reported through [exit.Message] before the cluster is
    loaded. *)
Definition before_load (kind : ErrorKind) : Prop :=
  kind = MalformedSpec \/ kind = InvalidOS \/ kind = InvalidWindowsVersion
  \/ kind = UnsupportedRole.

(** An invariant of the state that every step of [m] keeps, whatever the
    outcome. *)
Definition keeps {A} (I : state -> Prop) (m : M A) : Prop :=
  hoare I m (fun _ s => I s).

(** [m] ends the process only with a failure kind that satisfies [phi]. *)
Definition may_exit {A} (phi : ErrorKind -> Prop) (m : M A) : Prop :=
  forall s, match fst (m s) with
            | Exit kind _ _ => phi kind
            | _ => True
            end.

(** The events a run has added to the trace, and the nodes it has handed
    to [node.Add]. *)
Definition new_events (s s' : state) : list event :=
  drop (length (trace s)) (trace s').

Definition nodes_added_by_Run (E : Env) (fl : Flags) (s : state) : list config.Node :=
  added_nodes (new_events s (snd (Run E fl s))).

(** [m] leaves the state as it is, whatever its outcome. *)
Definition pure_check {A} (m : M A) : Prop :=
  forall s, snd (m s) = s.

(** When [m] ends the process with a failure kind that satisfies [phi],
    the state is the one [m] started from. *)
Definition frame_on_exit {A} (phi : ErrorKind -> Prop) (m : M A) : Prop :=
  forall s kind r msg,
    fst (m s) = Exit kind r msg -> phi kind -> snd (m s) = s.

(** The flags of a request for a control-plane node on a linux host. *)
Definition control_plane_flags : Flags :=
  {| cpNode := true; workerNode := true; deleteNodeOnFailure := false;
     osType := "os=linux" |}.

(** The message [Run] prints for a control-plane node on a non-HA cluster. *)
Definition non_HA_message : string :=
  "Adding a control-plane node to a non-HA (non-multi-control plane) cluster is not currently supported. Please first delete the cluster and use 'minikube start --ha' to create new one.".

(** The flags of a request for a worker node on a linux host, the role
    flags at their defaults, and the node such a request adds to the
    one-node cluster. *)
Definition linux_flags : Flags :=
  {| cpNode := false; workerNode := true; deleteNodeOnFailure := false;
     osType := "os=linux" |}.

Definition worker_m02 : config.Node :=
  {| config.Name := "m02"; config.Worker := true; config.ControlPlane := false;
     config.KubernetesVersion := "v1.31.0" |}.

(** The value the last part with the key [key] gives to it, [dflt] when
    no part has that key: what a sequence of assignments to a map leaves
    under [key]. *)
Fixpoint last_value (key : string) (parts : list string) (dflt : string) : string :=
  match parts with
  | [] => dflt
  | part :: rest =>
      match strings.Split part "=" with
      | [k; v] => last_value key rest (if decide (k = key) then v else dflt)
      | _ => last_value key rest dflt
      end
  end.

(** A string that holds neither "," nor "=". *)
Definition no_separator (s : string) : Prop :=
  strings.Count s "," = 0%nat /\ strings.Count s "=" = 0%nat.

(** *** What [Run] does once the flags are accepted, as pure functions
    of the flags, the environment and the configuration it loads *)

(** The four checks before the cluster is loaded pass. *)
Definition flags_accepted (E : Env) (fl : Flags) : Prop :=
  exists os version,
    parseOSFlag (osType fl) = (os, version, None)
    /\ validateOS os = None
    /\ (version <> "" -> validateWindowsOSVersion E version = None)
    /\ (os = "windows" -> cpNode fl = false).

(** The name lines 103-109 compute; none for an empty node list. *)
Definition allocated_name (E : Env) (nodes : list config.Node) : option string :=
  match last nodes with
  | None => None
  | Some lastNode =>
      match node_ID E (config.Name lastNode) with
      | (lastID, None) => Some (node_Name E (GoInt.add lastID 1))
      | (_, Some _) => Some (node_Name E (GoInt.add (GoInt.len nodes) 1))
      end
  end.

(** The roles printed with the name. *)
Definition roles (fl : Flags) : list string :=
  (if workerNode fl then ["worker"] else [])
  ++ (if cpNode fl then ["control-plane"] else []).

(** The node built at lines 112-117. *)
Definition new_node (fl : Flags) (cc : config.ClusterConfig) (name : string) : config.Node :=
  {| config.Name := name;
     config.Worker := workerNode fl;
     config.ControlPlane := cpNode fl;
     config.KubernetesVersion := config.KubernetesConfig_KubernetesVersion cc |}.

Definition planned_node (E : Env) (fl : Flags) (cc : config.ClusterConfig)
    : option config.Node :=
  new_node fl cc <$> allocated_name E (config.Nodes cc).

(** The configuration after lines 119-123: the memory is lowered to 2200
    when the cluster has one node and --memory is unset. *)
Definition adjusted_config (E : Env) (cc : config.ClusterConfig) : config.ClusterConfig :=
  if (GoInt.len (config.Nodes cc) =? 1) && bool_decide (viper_GetString_memory E = "")
  then config.set_Memory 2200 cc
  else cc.

(** What [node.Add] is called on and what it gives. *)
Definition provisioned (E : Env) (fl : Flags) (cc : config.ClusterConfig)
    : option (config.ClusterConfig * option error) :=
  (fun n => node_Add E (adjusted_config E cc) n (deleteNodeOnFailure fl))
    <$> planned_node E fl cc.

(** What each event of a run that has loaded [cc0] tells. *)
Definition Run_event (E : Env) (fl : Flags) (cc0 : config.ClusterConfig) (e : event) : Prop :=
  match e with
  | out_FailureT msg =>
      (driver_BareMetal E (config.Driver cc0) = true
       /\ msg = "none driver does not support multi-node clusters")
      \/ (cpNode fl = true /\ config_IsHA E cc0 = false /\ msg = non_HA_message)
  | out_ErrLn_lastID lastID err =>
      lastID = GoInt.len (config.Nodes cc0)
      /\ exists lastNode, last (config.Nodes cc0) = Some lastNode
           /\ snd (node_ID E (config.Name lastNode)) = Some err
  | out_Step_Adding name cluster rs =>
      allocated_name E (config.Nodes cc0) = Some name
      /\ cluster = config.cc_Name cc0 /\ rs = roles fl
  | warnAboutMultiNodeCNI =>
      GoInt.len (config.Nodes cc0) = 1
      /\ (config.MultiNodeRequested cc0 = false
          \/ cni_IsDisabled E (adjusted_config E cc0) = true)
  | register_SetStep_InitialSetup => True
  | call_node_Add cc n delOnFail =>
      cc = adjusted_config E cc0
      /\ planned_node E fl cc0 = Some n
      /\ delOnFail = deleteNodeOnFailure fl
  | call_maybeDeleteAndRetry cc n err =>
      planned_node E fl cc0 = Some n
      /\ provisioned E fl cc0 = Some (cc, Some err)
  | call_SaveProfile name cc =>
      (exists r, provisioned E fl cc0 = Some (cc, r))
      /\ name = config.cc_Name cc
  | out_Step_Success name cluster =>
      allocated_name E (config.Nodes cc0) = Some name
      /\ exists cc r, provisioned E fl cc0 = Some (cc, r)
           /\ cluster = config.cc_Name cc
  end.

(** Why a run that loads [cc0] ends with a failure of kind [kind]. *)
Definition Run_exit (E : Env) (fl : Flags) (cc0 : config.ClusterConfig)
    (kind : ErrorKind) : Prop :=
  match kind with
  | MalformedSpec =>
      exists err, parseOSFlag (osType fl) = ("", "", Some err)
  | InvalidOS =>
      exists os version err,
        parseOSFlag (osType fl) = (os, version, None) /\ validateOS os = Some err
  | InvalidWindowsVersion =>
      exists os version err,
        parseOSFlag (osType fl) = (os, version, None) /\ validateOS os = None
        /\ version <> "" /\ validateWindowsOSVersion E version = Some err
  | UnsupportedRole =>
      exists version,
        parseOSFlag (osType fl) = ("windows", version, None)
        /\ validateWindowsOSVersion E version = None
        /\ cpNode fl = true
  | DriverIncapable =>
      flags_accepted E fl
      /\ driver_BareMetal E (config.Driver cc0) = true
      /\ out_FailureT_returns E = false
  | NotHAConfigured =>
      flags_accepted E fl
      /\ cpNode fl = true /\ config_IsHA E cc0 = false
      /\ out_FailureT_returns E = false
  | GuestNodeAddFailed =>
      flags_accepted E fl
      /\ exists n cc err err',
           planned_node E fl cc0 = Some n
           /\ provisioned E fl cc0 = Some (cc, Some err)
           /\ maybeDeleteAndRetry E cc n err = Some err'
  | HostSaveProfileFailed =>
      flags_accepted E fl
      /\ exists cc r err,
           provisioned E fl cc0 = Some (cc, r)
           /\ config_SaveProfile E (config.cc_Name cc) cc = Some err
  end.

(** How a run from a stored configuration [cc0] ends. *)
Definition Run_end (E : Env) (fl : Flags) (cc0 : config.ClusterConfig)
    (o : outcome unit) (s : state) : Prop :=
  match o with
  | Done _ =>
      flags_accepted E fl
      /\ exists cc r,
           provisioned E fl cc0 = Some (cc, r)
           /\ stored s = cc /\ loaded s = Some cc
           /\ config_SaveProfile E (config.cc_Name cc) cc = None
           /\ (forall n err, planned_node E fl cc0 = Some n -> r = Some err ->
                 maybeDeleteAndRetry E cc n err = None)
  | Exit kind _ _ => stored s = cc0 /\ Run_exit E fl cc0 kind
  | Panic => stored s = cc0 /\ flags_accepted E fl /\ config.Nodes cc0 = []
  end.

(** The calls of the collaborators that change the cluster or the stored
    profile. *)
Inductive call : Type := Add | Retry | Save.

Global Instance call_eq_dec : EqDecision call.
Proof. solve_decision. Defined.

Definition call_of (e : event) : option call :=
  match e with
  | call_node_Add _ _ _ => Some Add
  | call_maybeDeleteAndRetry _ _ _ => Some Retry
  | call_SaveProfile _ _ => Some Save
  | _ => None
  end.

Definition calls (evs : list event) : list call := omap call_of evs.

(** The calls of a run, by the way it ends. *)
Definition Run_calls (o : outcome unit) (cs : list call) : Prop :=
  match o with
  | Done _ => cs = [Add; Save] \/ cs = [Add; Retry; Save]
  | Exit GuestNodeAddFailed _ _ => cs = [Add; Retry]
  | Exit HostSaveProfileFailed _ _ => cs = [Add; Save] \/ cs = [Add; Retry; Save]
  | Exit _ _ _ => cs = []
  | Panic => cs = []
  end.

(** Among the calls of a run that has called [node.Add], the recovery
    is there exactly when [node.Add] has returned an error. *)
Definition Run_retried (E : Env) (fl : Flags) (cc0 : config.ClusterConfig)
    (cs : list call) : Prop :=
  forall cc r,
    provisioned E fl cc0 = Some (cc, r) -> Add ∈ cs ->
    (Retry ∈ cs <-> r <> None).

Definition Run_post (E : Env) (fl : Flags) (s0 : state)
    (o : outcome unit) (s : state) : Prop :=
  extends_by (Run_event E fl (stored s0)) s0 s
  /\ Run_end E fl (stored s0) o s
  /\ Run_calls o (calls (new_events s0 s))
  /\ Run_retried E fl (stored s0) (calls (new_events s0 s)).

(** The state of a run from [s0] as long as nothing is saved: the stored
    configuration is that of [s0], the pointer [cc] holds [ld], the new
    events satisfy [P] and the calls among them are [cs]. *)
Definition stage (P : event -> Prop) (s0 : state)
    (ld : option config.ClusterConfig) (cs : list call) (s : state) : Prop :=
  stored s = stored s0 /\ loaded s = ld /\ extends_by P s0 s
  /\ calls (new_events s0 s) = cs.

(** The sample environment with a [node.Add] that fails, leaving the
    configuration as it is, and a recovery that succeeds. *)
Definition failing_add_env : Env :=
  {| validateWindowsOSVersion := validateWindowsOSVersion sample_env;
     node_ID := node_ID sample_env;
     node_Name := node_Name sample_env;
     driver_BareMetal := driver_BareMetal sample_env;
     config_IsHA := config_IsHA sample_env;
     cni_IsDisabled := cni_IsDisabled sample_env;
     viper_GetString_memory := viper_GetString_memory sample_env;
     node_Add := fun cc _ _ => (cc, Some (Errorf "starting node: timed out"));
     maybeDeleteAndRetry := fun _ _ _ => None;
     config_SaveProfile := config_SaveProfile sample_env;
     out_FailureT_returns := out_FailureT_returns sample_env |}.

(** A string without a space. *)
Definition no_space (s : string) : Prop := strings.Count s " " = 0%nat.

(** What package os/exec does on a command whose path is empty: [Run]
    fails before a process is started (exec: no command), so the error is
    a start error and nothing is written to the two buffers. *)
Definition cannot_start_empty_path (h : powershell.Host) : Prop :=
  forall args,
    powershell.Stdout (powershell.cmd_Run h "" args) = ""
    /\ powershell.Stderr (powershell.cmd_Run h "" args) = ""
    /\ exists msg,
         powershell.err (powershell.cmd_Run h "" args)
         = Some (powershell.exec_Error msg).

(** The flags of a request for a windows control-plane node. *)
Definition windows_control_plane_flags : Flags :=
  {| cpNode := true; workerNode := true; deleteNodeOnFailure := false;
     osType := "os=windows" |}.

(** * Properties *)

(** ** [strings.Split] and [strings.Count] *)

Lemma Split_length (s : string) (sep : ascii) :
  length (strings.Split s sep) = S (strings.Count s sep).
Proof.
  induction s as [|c s IH]; simpl; [reflexivity|].
  destruct (decide (c = sep)); simpl.
  - by rewrite IH.
  - destruct (strings.Split s sep); simpl in *; congruence.
Qed.

Lemma Split_two_tokens (part : string) :
  one_eq_sign part <-> exists k v, strings.Split part "=" = [k; v].
Proof.
  unfold one_eq_sign. pose proof (Split_length part "=") as Hlen. split.
  - intros H. rewrite H in Hlen.
    destruct (strings.Split part "=") as [|k [|v [|]]]; simplify_eq/=; eauto.
  - intros (k & v & H). rewrite H in Hlen. simpl in Hlen. lia.
Qed.

(** ** [parseOSFlag] *)

Lemma parseOSFlag_loop_bad raw parts :
  Exists (fun part => ~ one_eq_sign part) parts ->
  forall osInfo,
    parseOSFlag_loop raw parts osInfo
    = inr (Errorf ("Invalid format for --os flag: " +:+ raw)).
Proof.
  induction parts as [|part parts IH]; intros Hbad osInfo.
  - inversion Hbad.
  - simpl. destruct (decide (one_eq_sign part)) as [Hok|Hnok].
    + destruct (proj1 (Split_two_tokens part) Hok) as (k & v & ->).
      apply IH. by inversion Hbad; subst.
    + destruct (strings.Split part "=") as [|k [|v [|]]] eqn:Hs; try done.
      exfalso. apply Hnok, Split_two_tokens; eauto.
Qed.

Lemma parseOSFlag_loop_good raw parts :
  Forall one_eq_sign parts ->
  forall osInfo, exists osInfo', parseOSFlag_loop raw parts osInfo = inl osInfo'.
Proof.
  induction 1 as [|part parts Hok _ IH]; intros osInfo; simpl; [eauto|].
  apply Split_two_tokens in Hok as (k & v & ->). apply IH.
Qed.

(** C3, as the code has it: [parseOSFlag] fails exactly when some
    comma-separated part does not hold exactly one "=" (so that splitting
    it on "=" does not give two tokens, empty or not); the error then is
    "Invalid format for --os flag: " followed by the raw flag value, and
    the two strings returned are empty. Otherwise it succeeds. *)
Theorem parseOSFlag_fails_iff_part_without_one_eq (raw : string) :
  (Exists (fun part => ~ one_eq_sign part) (strings.Split raw ",") ->
     parseOSFlag raw
     = ("", "", Some (Errorf ("Invalid format for --os flag: " +:+ raw))))
  /\ (Forall one_eq_sign (strings.Split raw ",") ->
        exists os version, parseOSFlag raw = (os, version, None))
  /\ (Exists (fun part => ~ one_eq_sign part) (strings.Split raw ",")
      \/ Forall one_eq_sign (strings.Split raw ",")).
Proof.
  split; [|split].
  - intros Hbad. unfold parseOSFlag. by rewrite parseOSFlag_loop_bad.
  - intros Hgood. unfold parseOSFlag.
    edestruct (parseOSFlag_loop_good raw _ Hgood) as [osInfo' ->]. eauto.
  - destruct (decide (Forall one_eq_sign (strings.Split raw ","))) as [H|H];
      [by right|left]. by apply not_Forall_Exists in H; [|apply _].
Qed.

Lemma parseOSFlag_fails_iff_part_without_one_eq_witness :
  parseOSFlag "os=windows,version"
  = ("", "", Some (Errorf "Invalid format for --os flag: os=windows,version"))
  /\ exists os version, parseOSFlag "os=windows,version=2019" = (os, version, None).
Proof.
  split.
  - apply (proj1 (parseOSFlag_fails_iff_part_without_one_eq "os=windows,version")).
    apply Exists_cons_tl, Exists_cons_hd. vm_compute. discriminate.
  - apply (proj1 (proj2 (parseOSFlag_fails_iff_part_without_one_eq "os=windows,version=2019"))).
    repeat constructor.
Defined.

(** C3, as the specification words it, fails: the part "os=" does not
    split into two non-empty tokens on its first "=", and [parseOSFlag]
    accepts it (the kind it returns is the empty string); the part
    "os=a=b" splits into the non-empty tokens "os" and "a=b" on its first
    "=", and [parseOSFlag] rejects it. *)
Lemma parseOSFlag_not_nonempty_tokens_on_first_eq :
  (Exists (fun part => spec_pair_well_formed part = false) (strings.Split "os=" ",")
   /\ parseOSFlag "os=" = ("", "", None))
  /\ (Forall (fun part => spec_pair_well_formed part = true) (strings.Split "os=a=b" ",")
      /\ parseOSFlag "os=a=b"
         = ("", "", Some (Errorf "Invalid format for --os flag: os=a=b"))).
Proof.
  split; split.
  - apply Exists_cons_hd. reflexivity.
  - vm_compute. reflexivity.
  - repeat constructor.
  - vm_compute. reflexivity.
Qed.

Lemma parseOSFlag_loop_other_keys raw parts :
  Forall other_key parts ->
  forall osInfo, exists osInfo',
    parseOSFlag_loop raw parts osInfo = inl osInfo'
    /\ index osInfo' "os" = index osInfo "os"
    /\ index osInfo' "version" = index osInfo "version".
Proof.
  induction 1 as [|part parts (k & v & Hs & Hos & Hver) _ IH]; intros osInfo; simpl.
  - eauto.
  - rewrite Hs. destruct (IH (<[k := v]> osInfo)) as (m' & -> & Ho & Hv).
    exists m'. split; [done|]. rewrite Ho, Hv. unfold index.
    by rewrite !lookup_insert_ne.
Qed.

(** C4, as the code has it: the empty flag value is rejected, with the
    error "Invalid format for --os flag: " (its single empty part holds no
    "="); the defaults (linux, "") are what [parseOSFlag] returns for a
    well-formed value that sets neither "os" nor "version". *)
Theorem parseOSFlag_empty_rejected (raw : string) :
  parseOSFlag "" = ("", "", Some (Errorf "Invalid format for --os flag: "))
  /\ (Forall other_key (strings.Split raw ",") ->
      parseOSFlag raw = ("linux", "", None)).
Proof.
  split; [vm_compute; reflexivity|].
  intros Hparts. unfold parseOSFlag.
  edestruct (parseOSFlag_loop_other_keys raw _ Hparts) as (m' & -> & Ho & Hv).
  assert (index m' "os" = "linux") as Hos by (rewrite Ho; reflexivity).
  assert (index m' "version" = "") as Hver by (rewrite Hv; reflexivity).
  rewrite Hos, Hver. rewrite (bool_decide_eq_false_2 ("linux" = "windows")) by done.
  simpl. by rewrite Hos, Hver.
Qed.

Lemma parseOSFlag_empty_rejected_witness :
  parseOSFlag "arch=amd64" = ("linux", "", None).
Proof.
  apply (proj2 (parseOSFlag_empty_rejected "arch=amd64")).
  apply Forall_cons_2; [|apply Forall_nil_2].
  exists "arch", "amd64". split; [reflexivity|]. split; discriminate.
Defined.

(** C4, as the specification words it, fails: [parseOSFlag ""] returns an
    error, not the defaults. *)
Lemma parseOSFlag_empty_not_defaults :
  parseOSFlag "" <> ("linux", "", None)
  /\ snd (parseOSFlag "") <> None.
Proof. split; vm_compute; discriminate. Qed.

(** ** [validateOS] *)

Lemma validateOS_other (os : string) :
  os <> "linux" -> os <> "windows" ->
  validateOS os
  = Some (Errorf ("Invalid OS: " +:+ os +:+ ". Valid OS are: linux, windows")).
Proof.
  intros Hl Hw. unfold validateOS. simpl.
  rewrite !bool_decide_eq_false_2 by done. reflexivity.
Qed.

(** C7: no error for "linux" and for "windows"; for every other value the
    error "Invalid OS: <value>. Valid OS are: linux, windows". *)
Theorem validateOS_message (os : string) :
  validateOS "linux" = None
  /\ validateOS "windows" = None
  /\ (os <> "linux" -> os <> "windows" ->
      validateOS os
      = Some (Errorf ("Invalid OS: " +:+ os +:+ ". Valid OS are: linux, windows"))).
Proof.
  split; [reflexivity|]. split; [reflexivity|]. apply validateOS_other.
Qed.

Lemma validateOS_message_witness :
  validateOS "foo" = Some (Errorf "Invalid OS: foo. Valid OS are: linux, windows").
Proof.
  apply (proj2 (proj2 (validateOS_message "foo"))); discriminate.
Defined.

(** [validateOS] accepts exactly the two kinds. *)
Lemma validateOS_None_iff (os : string) :
  validateOS os = None <-> os = "linux" \/ os = "windows".
Proof.
  split.
  - intros H. destruct (decide (os = "linux")); [by left|].
    destruct (decide (os = "windows")); [by right|].
    by rewrite validateOS_other in H.
  - intros [-> | ->]; reflexivity.
Qed.

(** ** [node.Name] and [node.ID] *)

Lemma to_uint_nonnil (n : N) : N.to_uint n <> Decimal.Nil.
Proof.
  destruct n as [|p]; simpl; [discriminate|].
  apply DecimalPos.Unsigned.to_uint_nonnil.
Qed.

Lemma decimal_parse (n : N) :
  NilEmpty.uint_of_string (node.decimal n) = Some (N.to_uint n)
  /\ node.decimal n <> "".
Proof.
  unfold node.decimal. pose proof (to_uint_nonnil n) as Hnn.
  split.
  - generalize (NilZero.usu _ Hnn). unfold NilZero.uint_of_string.
    destruct (NilZero.string_of_uint (N.to_uint n)); [discriminate|done].
  - destruct (N.to_uint n); simpl; discriminate.
Qed.

Lemma ID_digits (ds : string) (d : Decimal.uint) :
  ds <> "" ->
  NilEmpty.uint_of_string ds = Some d ->
  Z.of_N (N.of_uint d) <= GoInt.maxInt ->
  forall name, node.TrimPrefix_m name = ds ->
    node.ID name = (Z.of_N (N.of_uint d), None).
Proof.
  intros Hne Hparse Hmax name Htrim. unfold node.ID. rewrite Htrim.
  destruct ds as [|c ds]; [done|]. rewrite Hparse.
  destruct (Z.leb_spec (Z.of_N (N.of_uint d)) GoInt.maxInt); [done|lia].
Qed.

Lemma ID_Name (n : Z) :
  0 <= n <= GoInt.maxInt -> node.ID (node.Name n) = (n, None).
Proof.
  intros [H0 Hmax]. destruct (decimal_parse (Z.to_N n)) as [Hparse Hne].
  assert (Z.of_N (N.of_uint (N.to_uint (Z.to_N n))) = n) as Hval
    by (rewrite DecimalN.Unsigned.of_to; lia).
  rewrite <- Hval at 2.
  unfold node.Name. destruct (Z.ltb_spec n 0); [lia|].
  destruct (Z.ltb_spec n 10).
  - apply (ID_digits (String "0" (node.decimal (Z.to_N n)))
                     (Decimal.D0 (N.to_uint (Z.to_N n)))).
    + discriminate.
    + simpl. by rewrite Hparse.
    + change (N.of_uint (Decimal.D0 (N.to_uint (Z.to_N n))))
        with (N.of_uint (N.to_uint (Z.to_N n))). lia.
    + reflexivity.
  - apply (ID_digits (node.decimal (Z.to_N n))); try done. lia.
Qed.

Lemma Name_inj (n k : Z) :
  0 <= n <= GoInt.maxInt -> 0 <= k <= GoInt.maxInt ->
  node.Name n = node.Name k -> n = k.
Proof.
  intros Hn Hk Heq. pose proof (ID_Name n Hn) as H1.
  rewrite Heq, (ID_Name k Hk) in H1. congruence.
Qed.

Lemma add_no_wrap (i : Z) :
  GoInt.minInt <= i < GoInt.maxInt -> GoInt.add i 1 = i + 1.
Proof.
  unfold GoInt.add, GoInt.wrap, GoInt.minInt, GoInt.maxInt. intros H.
  rewrite Z.mod_small; lia.
Qed.

(** ** The allocation of the node name *)

Lemma newNodeName_last (E : Env) (nodes : list config.Node)
    (lastNode : config.Node) (s : state) :
  last nodes = Some lastNode ->
  newNodeName E nodes s
  = match node_ID E (config.Name lastNode) with
    | (lastID, None) => (Done (node_Name E (GoInt.add lastID 1)), s)
    | (_, Some err) =>
        (Done (node_Name E (GoInt.add (GoInt.len nodes) 1)),
         {| stored := stored s; loaded := loaded s;
            trace := trace s ++ [out_ErrLn_lastID (GoInt.len nodes) err] |})
    end.
Proof.
  intros Hlast. unfold newNodeName, last_Node, bind. rewrite Hlast. simpl.
  by destruct (node_ID E (config.Name lastNode)) as [lastID [err|]].
Qed.

(** C8: for a non-empty node list the new name encodes the id of the last
    node plus one; when [node.ID] fails on the last node's name, the id is
    the length of the list, one line is printed with [out.ErrLn], and the
    name is returned all the same. *)
Theorem newNodeName_follows_last (E : Env) (nodes : list config.Node) (s : state) :
  nodes <> [] ->
  exists lastNode, last nodes = Some lastNode
    /\ match node_ID E (config.Name lastNode) with
       | (lastID, None) =>
           newNodeName E nodes s = (Done (node_Name E (GoInt.add lastID 1)), s)
           /\ (GoInt.minInt <= lastID < GoInt.maxInt ->
               GoInt.add lastID 1 = lastID + 1)
       | (_, Some err) =>
           let lastID := GoInt.len nodes in
           newNodeName E nodes s
           = (Done (node_Name E (GoInt.add lastID 1)),
              {| stored := stored s; loaded := loaded s;
                 trace := trace s ++ [out_ErrLn_lastID lastID err] |})
           /\ (lastID < GoInt.maxInt -> GoInt.add lastID 1 = lastID + 1)
       end.
Proof.
  intros Hne. destruct (last nodes) as [lastNode|] eqn:Hlast.
  2: { apply last_None in Hlast. done. }
  exists lastNode. split; [done|].
  rewrite (newNodeName_last E nodes lastNode s Hlast).
  destruct (node_ID E (config.Name lastNode)) as [lastID [err|]]; simpl.
  - split; [done|]. intros H. apply add_no_wrap.
    unfold GoInt.minInt, GoInt.len in *. lia.
  - split; [done|]. apply add_no_wrap.
Qed.

Lemma newNodeName_follows_last_witness :
  newNodeName sample_env [primary] (start_state single_node_cluster)
  = (Done "m02", start_state single_node_cluster)
  /\ exists tr,
      newNodeName sample_env
        [{| config.Name := "minikube"; config.Worker := true;
            config.ControlPlane := true; config.KubernetesVersion := "" |}]
        (start_state single_node_cluster)
      = (Done "m02", {| stored := single_node_cluster; loaded := None; trace := tr |}).
Proof.
  split.
  - destruct (newNodeName_follows_last sample_env [primary]
                (start_state single_node_cluster)) as (l & Hl & H); [discriminate|].
    injection Hl as <-. exact (proj1 H).
  - eexists.
    destruct (newNodeName_follows_last sample_env
                [{| config.Name := "minikube"; config.Worker := true;
                    config.ControlPlane := true; config.KubernetesVersion := "" |}]
                (start_state single_node_cluster)) as (l & Hl & H); [discriminate|].
    injection Hl as <-. exact (proj1 H).
Defined.

(** C9, on [node.Name] and [node.ID] as modelled from the specification:
    [ID (Name n) = n] for every id from 0 to the largest int; hence the
    names of distinct ids differ, and allocating after a last node named
    [Name n] gives [Name (n + 1)], whose id is larger than [n] and whose
    name differs from the name of every id up to [n]. *)
Theorem ID_Name_roundtrip (n : Z) :
  0 <= n <= GoInt.maxInt ->
  node.ID (node.Name n) = (n, None)
  /\ (forall k, 0 <= k <= GoInt.maxInt -> node.Name n = node.Name k -> n = k)
  /\ (n < GoInt.maxInt ->
      forall (E : Env) (nodes : list config.Node) (lastNode : config.Node) (s : state),
        node_ID E = node.ID -> node_Name E = node.Name ->
        last nodes = Some lastNode -> config.Name lastNode = node.Name n ->
        newNodeName E nodes s = (Done (node.Name (n + 1)), s)
        /\ node.ID (node.Name (n + 1)) = (n + 1, None)
        /\ forall k, 0 <= k <= n -> node.Name k <> node.Name (n + 1)).
Proof.
  intros Hn. split; [by apply ID_Name|]. split.
  - intros k Hk. by apply Name_inj.
  - intros Hlt E nodes lastNode s HID HName Hlast Hname.
    rewrite (newNodeName_last E nodes lastNode s Hlast).
    rewrite HID, Hname, ID_Name, HName by done.
    rewrite add_no_wrap by (unfold GoInt.minInt; lia).
    split; [done|]. split; [apply ID_Name; lia|].
    intros k Hk Heq. apply Name_inj in Heq; lia.
Qed.

Lemma ID_Name_roundtrip_witness :
  node.ID (node.Name 2) = (2, None)
  /\ newNodeName sample_env [primary; {| config.Name := "m02"; config.Worker := true;
        config.ControlPlane := false; config.KubernetesVersion := "v1.31.0" |}]
       (start_state single_node_cluster)
     = (Done "m03", start_state single_node_cluster).
Proof.
  assert (0 <= 2 <= GoInt.maxInt) as H by (unfold GoInt.maxInt; lia).
  split.
  - exact (proj1 (ID_Name_roundtrip 2 H)).
  - refine (proj1 (proj2 (proj2 (ID_Name_roundtrip 2 H)) _ sample_env _ _ _ _ _ _ _));
      [unfold GoInt.maxInt; lia | reflexivity..].
Defined.

(** ** Reasoning on [M] *)

Lemma hoare_bind {A B} (P : state -> Prop) (m : M A) (k : A -> M B)
    (R : A -> state -> Prop) (Q : outcome B -> state -> Prop) :
  hoare P m (post_bind R Q) ->
  (forall a, hoare (R a) (k a) Q) ->
  hoare P (bind m k) Q.
Proof.
  intros Hm Hk s Hs. specialize (Hm s Hs). unfold bind.
  destruct (m s) as [[a| |] s']; simpl in *; [by apply Hk|done..].
Qed.

Lemma hoare_conseq {A} (P P' : state -> Prop) (m : M A)
    (Q Q' : outcome A -> state -> Prop) :
  hoare P' m Q' -> (forall s, P s -> P' s) -> (forall o s, Q' o s -> Q o s) ->
  hoare P m Q.
Proof. intros Hm HP HQ s Hs. apply HQ, Hm, HP, Hs. Qed.

Lemma hoare_when_err (P : state -> Prop) (err : option error)
    (k : error -> M unit) (Q : outcome unit -> state -> Prop) :
  (forall e, err = Some e -> hoare P (k e) Q) ->
  (err = None -> forall s, P s -> Q (Done tt) s) ->
  hoare P (when_err err k) Q.
Proof.
  intros Hk Hn. destruct err as [e|]; simpl; [by apply Hk|].
  intros s Hs. by apply Hn.
Qed.

Lemma keeps_bind {A B} (I : state -> Prop) (m : M A) (k : A -> M B) :
  keeps I m -> (forall a, keeps I (k a)) -> keeps I (bind m k).
Proof.
  intros Hm Hk. apply hoare_bind with (R := fun _ s => I s); [|done].
  intros s Hs. specialize (Hm s Hs). by destruct (m s) as [[| |] ?].
Qed.

Lemma keeps_ret {A} (I : state -> Prop) (a : A) : keeps I (ret a).
Proof. by intros s Hs. Qed.

Lemma keeps_when_err (I : state -> Prop) (err : option error) (k : error -> M unit) :
  (forall e, keeps I (k e)) -> keeps I (when_err err k).
Proof. intros Hk. destruct err; simpl; [done|apply keeps_ret]. Qed.

Lemma keeps_exit_Message {A} (I : state -> Prop) kind r msg :
  keeps I (@exit_Message A kind r msg).
Proof. by intros s Hs. Qed.

Lemma keeps_exit_Error {A} (I : state -> Prop) kind r msg err :
  keeps I (@exit_Error A kind r msg err).
Proof. by intros s Hs. Qed.

Section trace_invariant.
Variable P : event -> Prop.
Variable s0 : state.

Lemma extends_by_refl : extends_by P s0 s0.
Proof. exists []. by rewrite app_nil_r. Qed.

Lemma keeps_emit (e : event) : P e -> keeps (extends_by P s0) (emit e).
Proof.
  intros He s (evs & Hevs & HP). exists (evs ++ [e]). simpl. split.
  - by rewrite Hevs, app_assoc.
  - apply Forall_app; auto.
Qed.

Lemma keeps_same_trace {A} (m : M A) :
  (forall s, trace (snd (m s)) = trace s) -> keeps (extends_by P s0) m.
Proof. intros Hm s (evs & Hevs & HP). exists evs. by rewrite Hm. Qed.

Lemma keeps_FailureT (E : Env) kind msg :
  P (out_FailureT msg) -> keeps (extends_by P s0) (FailureT E kind msg).
Proof.
  intros He. apply keeps_bind; [by apply keeps_emit|]. intros _.
  destruct (out_FailureT_returns E); by apply keeps_same_trace.
Qed.

Lemma keeps_SaveProfile (E : Env) name cc :
  P (call_SaveProfile name cc) -> keeps (extends_by P s0) (SaveProfile E name cc).
Proof.
  intros He. apply keeps_bind; [by apply keeps_emit|]. intros _.
  destruct (config_SaveProfile E name cc); by apply keeps_same_trace.
Qed.

Lemma keeps_newNodeName (E : Env) nodes :
  (forall i err, P (out_ErrLn_lastID i err)) ->
  keeps (extends_by P s0) (newNodeName E nodes).
Proof.
  intros He. unfold newNodeName. apply keeps_bind.
  - unfold last_Node. destruct (last nodes); by apply keeps_same_trace.
  - intros lastNode. destruct (node_ID E (config.Name lastNode)) as [i [err|]].
    + apply keeps_bind; [|intros; apply keeps_ret].
      apply keeps_bind; [by apply keeps_emit|intros; apply keeps_ret].
    + apply keeps_bind; intros; apply keeps_ret.
Qed.
End trace_invariant.

Ltac keeps_step :=
  lazymatch goal with
  | |- keeps _ (FailureT _ _ _) => apply keeps_FailureT; done
  | |- keeps _ (SaveProfile _ _ _) => apply keeps_SaveProfile; done
  | |- keeps _ (newNodeName _ _) => apply keeps_newNodeName; done
  | |- keeps _ (when_err _ _) => apply keeps_when_err; intros ?
  | |- keeps _ (exit_Message _ _ _) => apply keeps_exit_Message
  | |- keeps _ (exit_Error _ _ _ _) => apply keeps_exit_Error
  | |- keeps _ (ret _) => apply keeps_ret
  | |- keeps _ (emit _) => apply keeps_emit; done
  | |- keeps _ (bind _ _) => apply keeps_bind; [|intros ?]
  | |- keeps _ get_cc =>
      apply keeps_same_trace; intros ?; unfold get_cc; by case_match
  | |- keeps _ mustload_Healthy => by apply keeps_same_trace
  | |- keeps _ (put_cc _) => by apply keeps_same_trace
  | |- keeps _ (if ?c then _ else _) => destruct c
  | |- keeps _ (let '(_, _) := ?p in _) => destruct p
  end.

(** Every step of [Run] extends the trace, and the nodes it hands to
    [node.Add] have the roles of the flags. *)
Lemma Run_roles (E : Env) (fl : Flags) (s : state) :
  extends_by (roles_of fl) s (snd (Run E fl s)).
Proof.
  assert (keeps (extends_by (roles_of fl) s) (Run E fl)) as H;
    [|apply H, extends_by_refl].
  unfold Run. destruct (parseOSFlag (osType fl)) as [[os ver] err].
  repeat keeps_step.
Qed.

(** C10: with --worker and --control-plane left at their defaults, every
    node [Run] builds and hands to [node.Add] is a worker and not a
    control-plane node; and a node with neither role is built only when
    the worker flag is false, which is not its default. *)
Theorem default_flags_worker_only (E : Env) (fl : Flags) (s : state) (n : config.Node) :
  n ∈ nodes_added_by_Run E fl s ->
  (cpNode fl = cpNode init -> workerNode fl = workerNode init ->
   config.Worker n = true /\ config.ControlPlane n = false)
  /\ (config.Worker n = false -> config.ControlPlane n = false ->
      workerNode fl = false /\ workerNode fl <> workerNode init).
Proof.
  unfold nodes_added_by_Run, new_events, added_nodes.
  destruct (Run_roles E fl s) as (evs & -> & Hevs).
  rewrite drop_app_length. intros Hn.
  apply list_elem_of_omap in Hn as (e & He & Hsome).
  rewrite Forall_forall in Hevs. specialize (Hevs e He).
  destruct e; try discriminate. injection Hsome as ->.
  destruct Hevs as [Hw Hcp]. split.
  - intros Hc Hwk. rewrite Hw, Hcp, Hc, Hwk. done.
  - intros Hnw Hncp. rewrite <- Hw, Hnw. done.
Qed.

Lemma default_flags_worker_only_witness :
  nodes_added_by_Run sample_env linux_flags (start_state single_node_cluster)
  = [worker_m02]
  /\ config.Worker worker_m02 = true /\ config.ControlPlane worker_m02 = false.
Proof.
  split; [vm_compute; reflexivity|].
  apply (proj1 (default_flags_worker_only sample_env linux_flags
                  (start_state single_node_cluster) worker_m02
                  ltac:(vm_compute; apply list_elem_of_here)));
    reflexivity.
Defined.

(** ** Where [Run] can end *)

Section exits.
Variable phi : ErrorKind -> Prop.

Lemma may_exit_bind {A B} (m : M A) (k : A -> M B) :
  may_exit phi m -> (forall a, may_exit phi (k a)) -> may_exit phi (bind m k).
Proof.
  intros Hm Hk s. specialize (Hm s). unfold bind.
  destruct (m s) as [[a| |] s']; simpl in *; [apply Hk|done..].
Qed.

Lemma may_exit_done {A} (m : M A) :
  (forall s, exists a, fst (m s) = Done a) -> may_exit phi m.
Proof. intros Hm s. by destruct (Hm s) as [a ->]. Qed.

Lemma may_exit_emit (e : event) : may_exit phi (emit e).
Proof. by intros s. Qed.

Lemma may_exit_ret {A} (a : A) : may_exit phi (ret a).
Proof. by intros s. Qed.

Lemma may_exit_mustload_Healthy : may_exit phi mustload_Healthy.
Proof. by intros s. Qed.

Lemma may_exit_put_cc cc : may_exit phi (put_cc cc).
Proof. by intros s. Qed.

Lemma may_exit_get_cc : may_exit phi get_cc.
Proof. intros s. unfold get_cc. by destruct (loaded s). Qed.

Lemma may_exit_when_err (err : option error) (k : error -> M unit) :
  (forall e, err = Some e -> may_exit phi (k e)) -> may_exit phi (when_err err k).
Proof. intros Hk. destruct err; simpl; [by apply Hk|done]. Qed.

Lemma may_exit_exit_Message {A} kind r msg :
  phi kind -> may_exit phi (@exit_Message A kind r msg).
Proof. by intros H s. Qed.

Lemma may_exit_bind_exit_Message {A B} kind r msg (k : A -> M B) :
  phi kind -> may_exit phi (bind (exit_Message kind r msg) k).
Proof. intros H s. exact H. Qed.

Lemma may_exit_exit_Error {A} kind r msg err :
  phi kind -> may_exit phi (@exit_Error A kind r msg err).
Proof. by intros H s. Qed.

Lemma may_exit_FailureT (E : Env) kind msg :
  phi kind -> may_exit phi (FailureT E kind msg).
Proof.
  intros H. apply may_exit_bind; [apply may_exit_emit|].
  intros _. destruct (out_FailureT_returns E); by intros s.
Qed.

Lemma may_exit_SaveProfile (E : Env) name cc :
  may_exit phi (SaveProfile E name cc).
Proof.
  apply may_exit_bind; [apply may_exit_emit|].
  intros _. destruct (config_SaveProfile E name cc); by intros s.
Qed.

Lemma may_exit_newNodeName (E : Env) nodes : may_exit phi (newNodeName E nodes).
Proof.
  intros s. unfold newNodeName, last_Node, bind.
  destruct (last nodes) as [l|]; simpl; [|done].
  by destruct (node_ID E (config.Name l)) as [i [err|]].
Qed.
End exits.

Ltac may_exit_step :=
  lazymatch goal with
  | |- may_exit _ (FailureT _ _ _) => apply may_exit_FailureT
  | |- may_exit _ (SaveProfile _ _ _) => apply may_exit_SaveProfile
  | |- may_exit _ (newNodeName _ _) => apply may_exit_newNodeName
  | |- may_exit _ get_cc => apply may_exit_get_cc
  | |- may_exit _ (emit _) => apply may_exit_emit
  | |- may_exit _ (ret _) => apply may_exit_ret
  | |- may_exit _ mustload_Healthy => apply may_exit_mustload_Healthy
  | |- may_exit _ (put_cc _) => apply may_exit_put_cc
  | |- may_exit _ (exit_Message _ _ _) => apply may_exit_exit_Message
  | |- may_exit _ (exit_Error _ _ _ _) => apply may_exit_exit_Error
  | |- may_exit _ (when_err _ _) => apply may_exit_when_err; intros ? ?
  | |- may_exit _ (bind _ _) => apply may_exit_bind; [|intros ?]
  | |- may_exit _ (if ?c then _ else _) => destruct c eqn:?
  | |- may_exit _ (let '(_, _) := ?p in _) => destruct p eqn:?
  end.

(** The version of a windows spec is never empty: an empty one is
    replaced by the default. *)
Lemma parseOSFlag_windows_version (raw version : string) :
  parseOSFlag raw = ("windows", version, None) -> version <> "".
Proof.
  unfold parseOSFlag.
  destruct (parseOSFlag_loop _ _ _) as [m|e]; [|discriminate].
  destruct (bool_decide (index m "os" = "windows")) eqn:Hos; simpl.
  - destruct (bool_decide (index m "version" = "")) eqn:Hver; simpl.
    + unfold index at 2. rewrite lookup_insert_eq. simpl. intros [= _ <-]. done.
    + apply bool_decide_eq_false_1 in Hver. by intros [= _ <-].
  - apply bool_decide_eq_false_1 in Hos. by intros [= ? _].
Qed.

(** C5, as the code has it: the version check is guarded by the version
    being non-empty, not by the kind. [Run] ends with
    [InvalidWindowsVersion] exactly when the flag parses, the kind is
    valid, the version is non-empty and [validateWindowsOSVersion] rejects
    it; so a spec with an empty version never fails that way, and the
    version of a windows spec is never empty. *)
Theorem Run_InvalidWindowsVersion_iff (E : Env) (fl : Flags) (s : state) :
  ((exists r msg, fst (Run E fl s) = Exit InvalidWindowsVersion r msg)
   <-> exists os version err,
         parseOSFlag (osType fl) = (os, version, None)
         /\ validateOS os = None
         /\ version <> ""
         /\ validateWindowsOSVersion E version = Some err)
  /\ (forall os, parseOSFlag (osType fl) = (os, "", None) ->
        forall r msg, fst (Run E fl s) <> Exit InvalidWindowsVersion r msg)
  /\ (forall version, parseOSFlag (osType fl) = ("windows", version, None) ->
        version <> "").
Proof.
  assert (may_exit (fun kind => kind = InvalidWindowsVersion ->
            exists os version err,
              parseOSFlag (osType fl) = (os, version, None)
              /\ validateOS os = None /\ version <> ""
              /\ validateWindowsOSVersion E version = Some err) (Run E fl)) as Hexit.
  { unfold Run. destruct (parseOSFlag (osType fl)) as [[os ver] err].
    destruct err as [e|]; [by apply may_exit_bind_exit_Message|].
    apply may_exit_bind; [apply may_exit_ret|intros _].
    destruct (validateOS os) as [e|] eqn:Hos; [by apply may_exit_bind_exit_Message|].
    apply may_exit_bind; [apply may_exit_ret|intros _].
    apply may_exit_bind.
    - destruct (bool_decide (ver <> "")) eqn:Hver; [|apply may_exit_ret].
      apply bool_decide_eq_true_1 in Hver.
      apply may_exit_when_err. intros e He. apply may_exit_exit_Message.
      intros _. by exists os, ver, e.
    - intros _. repeat may_exit_step; done. }
  split; [split|split].
  - intros (r & msg & Hrun). specialize (Hexit s). rewrite Hrun in Hexit. auto.
  - intros (os & ver & e & Hparse & Hos & Hver & Hwin).
    exists reason_Usage, (Error e). unfold Run. rewrite Hparse. simpl.
    rewrite Hos. simpl. rewrite bool_decide_eq_true_2 by done.
    rewrite Hwin. reflexivity.
  - intros os Hparse r msg Hrun. specialize (Hexit s). rewrite Hrun in Hexit.
    destruct Hexit as (os' & ver & e & Hparse' & _ & Hver & _); [done|].
    congruence.
  - intros version. apply parseOSFlag_windows_version.
Qed.

Lemma Run_InvalidWindowsVersion_iff_witness :
  fst (Run sample_env linux_flags (start_state single_node_cluster))
  <> Exit InvalidWindowsVersion reason_Usage "Invalid Windows Server OS Version: ".
Proof.
  apply (proj1 (proj2 (Run_InvalidWindowsVersion_iff sample_env linux_flags
                         (start_state single_node_cluster))) "linux").
  vm_compute. reflexivity.
Defined.

(** C5, as the specification words it, fails: the spec "os=linux,
    version=1809" parses to the kind linux, and [Run] ends with
    [InvalidWindowsVersion]. *)
Lemma linux_spec_fails_with_InvalidWindowsVersion :
  let fl := {| cpNode := false; workerNode := true; deleteNodeOnFailure := false;
               osType := "os=linux,version=1809" |} in
  parseOSFlag (osType fl) = ("linux", "1809", None)
  /\ "linux" <> "windows"
  /\ fst (Run sample_env fl (start_state single_node_cluster))
     = Exit InvalidWindowsVersion reason_Usage
         "Invalid Windows Server OS Version: 1809".
Proof.
  intros fl. split; [vm_compute; reflexivity|]. split; [discriminate|].
  vm_compute. reflexivity.
Qed.

(** ** Rejections and the cluster configuration *)

Lemma frame_on_exit_bind {A B} (phi : ErrorKind -> Prop) (m : M A) (k : A -> M B) :
  pure_check m -> (forall a, frame_on_exit phi (k a)) ->
  frame_on_exit phi (bind m k).
Proof.
  intros Hm Hk s kind r msg. specialize (Hm s). unfold bind.
  destruct (m s) as [[a| |] s']; simpl in *; subst s'; [apply Hk|done..].
Qed.

Lemma frame_on_exit_other {A} (phi : ErrorKind -> Prop) (m : M A) :
  may_exit (fun kind => ~ phi kind) m -> frame_on_exit phi m.
Proof.
  intros Hm s kind r msg Hexit Hphi. specialize (Hm s).
  rewrite Hexit in Hm. done.
Qed.

Lemma pure_check_when_err_exit (err : option error) kind r (f : error -> string) :
  pure_check (when_err err (fun e => exit_Message kind r (f e))).
Proof. intros s. by destruct err. Qed.

(** The rejections through [exit.Message] come before the cluster is
    loaded: when [Run] ends with a malformed spec, an invalid OS, an
    invalid Windows version or the unsupported role (a windows
    control-plane node), the state is untouched: nothing is loaded,
    stored or printed. *)
Lemma Run_rejects_before_load (E : Env) (fl : Flags) :
  frame_on_exit before_load (Run E fl).
Proof.
  unfold Run. destruct (parseOSFlag (osType fl)) as [[os ver] err].
  apply frame_on_exit_bind; [apply pure_check_when_err_exit|intros _].
  apply frame_on_exit_bind; [apply pure_check_when_err_exit|intros _].
  apply frame_on_exit_bind; [|intros _].
  { destruct (bool_decide (ver <> "")); [apply pure_check_when_err_exit|done]. }
  apply frame_on_exit_bind; [|intros _].
  { by destruct (bool_decide (os = "windows") && cpNode fl). }
  apply frame_on_exit_other.
  repeat may_exit_step; unfold before_load; intros [?|[?|[?|?]]]; discriminate.
Qed.

(** A windows control-plane node is rejected with the state untouched. *)
Lemma Run_windows_control_plane (E : Env) (fl : Flags) (s : state) (version : string) :
  parseOSFlag (osType fl) = ("windows", version, None) ->
  validateWindowsOSVersion E version = None ->
  cpNode fl = true ->
  Run E fl s
  = (Exit UnsupportedRole reason_Usage
       "Windows node cannot be used as control-plane nodes.", s).
Proof.
  intros Hparse Hver Hcp. unfold Run. rewrite Hparse. simpl.
  destruct (bool_decide (version <> "")); rewrite ?Hver, Hcp; reflexivity.
Qed.

(** Where [out.FailureT] returns, [Run] never ends on the driver check or
    on the HA check. *)
Lemma Run_goes_on_after_FailureT (E : Env) (fl : Flags) :
  out_FailureT_returns E = true ->
  may_exit (fun kind => kind <> DriverIncapable /\ kind <> NotHAConfigured) (Run E fl).
Proof.
  intros Hret.
  assert (forall kind msg,
    may_exit (fun kind => kind <> DriverIncapable /\ kind <> NotHAConfigured)
             (FailureT E kind msg)) as HF.
  { intros kind msg s. unfold FailureT, bind, emit. simpl. by rewrite Hret. }
  unfold Run. destruct (parseOSFlag (osType fl)) as [[os ver] err].
  repeat first [ apply HF | may_exit_step ]; done.
Qed.

(** C6, on the request for a control-plane node on the non-HA cluster of
    one node: [Run] prints the message of the HA check and goes on; it
    lowers the memory, hands the new control-plane node to [node.Add] and
    stores the changed configuration. *)
Theorem control_plane_added_to_non_HA_cluster :
  let s := start_state single_node_cluster in
  let m02 := {| config.Name := "m02"; config.Worker := true;
                config.ControlPlane := true;
                config.KubernetesVersion := "v1.31.0" |} in
  config_IsHA sample_env single_node_cluster = false
  /\ fst (Run sample_env control_plane_flags s) = Done tt
  /\ out_FailureT non_HA_message ∈ trace (snd (Run sample_env control_plane_flags s))
  /\ nodes_added_by_Run sample_env control_plane_flags s = [m02]
  /\ config.Memory (stored (snd (Run sample_env control_plane_flags s))) = 2200
  /\ config.Nodes (stored (snd (Run sample_env control_plane_flags s)))
     = [primary; m02]
  /\ stored (snd (Run sample_env control_plane_flags s)) <> single_node_cluster.
Proof.
  intros s m02. split; [reflexivity|]. split; [vm_compute; reflexivity|].
  split; [|split; [vm_compute; reflexivity|]].
  - vm_compute. apply list_elem_of_here.
  - split; [vm_compute; reflexivity|]. split; [vm_compute; reflexivity|].
    intros H. apply (f_equal config.Memory) in H. vm_compute in H. discriminate.
Qed.

(** ** [cmdOut] *)

(** C1, as the code has it: whatever the exit status, [cmdOut] returns
    the captured standard output together with the error of [cmd.Run];
    standard error is captured in a buffer of its own and logged after
    the command line and the standard output, and it is not part of what
    is returned: two runs that differ in their standard error only return
    the same. *)
Theorem cmdOut_returns_stdout (h : powershell.Host) (ps : string) (args : list string) :
  let run := powershell.cmd_Run h ps (["-NoProfile"; "-NonInteractive"] ++ args) in
  powershell.cmdOut h ps args
  = ((powershell.Stdout run, powershell.exec_err <$> powershell.err run),
     [powershell.klog_Infof
        ("[executing ==>] : " +:+ ps +:+ " "
         +:+ strings.Join (["-NoProfile"; "-NonInteractive"] ++ args) " ");
      powershell.call_cmd_Run ps (["-NoProfile"; "-NonInteractive"] ++ args);
      powershell.klog_Infof ("[stdout =====>] : " +:+ powershell.Stdout run);
      powershell.klog_Infof ("[stderr =====>] : " +:+ powershell.Stderr run)])
  /\ forall h' : powershell.Host,
       let run' := powershell.cmd_Run h' ps (["-NoProfile"; "-NonInteractive"] ++ args) in
       powershell.Stdout run' = powershell.Stdout run ->
       powershell.err run' = powershell.err run ->
       fst (powershell.cmdOut h' ps args) = fst (powershell.cmdOut h ps args).
Proof.
  split; [reflexivity|]. intros h' run' Hout Herr.
  subst run'. unfold powershell.cmdOut. simpl in *. by rewrite Hout, Herr.
Qed.

Lemma cmdOut_returns_stdout_witness :
  fst (powershell.cmdOut (powershell.host_fixed "out" "boom" 1) "powershell.exe" ["Get-VM"])
  = fst (powershell.cmdOut (powershell.host_fixed "out" "" 1) "powershell.exe" ["Get-VM"]).
Proof.
  apply (proj2 (cmdOut_returns_stdout (powershell.host_fixed "out" "" 1)
                  "powershell.exe" ["Get-VM"])); reflexivity.
Defined.

(** C1, as the specification words it, fails: the standard error of the
    command cannot be read off what [cmdOut] returns. A command that
    exits with status 1 after writing "out" and "boom" returns the same
    as one that writes "out" and nothing to standard error. *)
Lemma cmdOut_does_not_return_stderr :
  ~ exists stderr_of : string * option powershell.error -> string,
      forall (h : powershell.Host) (ps : string) (args : list string),
        stderr_of (fst (powershell.cmdOut h ps args))
        = powershell.Stderr
            (powershell.cmd_Run h ps (["-NoProfile"; "-NonInteractive"] ++ args)).
Proof.
  intros [stderr_of H].
  pose proof (H (powershell.host_fixed "out" "boom" 1) "powershell.exe" ["Get-VM"]) as H1.
  pose proof (H (powershell.host_fixed "out" "" 1) "powershell.exe" ["Get-VM"]) as H2.
  simpl in H1, H2. rewrite H1 in H2. discriminate.
Qed.

(** C2, as the code has it: when powershell.exe is not found, [init]
    leaves the package variable empty, and every call of [cmdOut] fails
    at once and without a process being started, though not with
    [ErrPowerShellNotFound]: [cmdOut] has no check of its own, it calls
    [cmd.Run] on the empty path, and what it returns is the start error
    of os/exec for a command without a path, with an empty output. *)
Theorem cmdOut_without_powershell (h : powershell.Host) (args : list string) :
  powershell.exec_LookPath h "powershell.exe" = None ->
  cannot_start_empty_path h ->
  powershell.init h = ""
  /\ (exists msg,
        fst (powershell.cmdOut h (powershell.init h) args)
        = ("", Some (powershell.exec_err (powershell.exec_Error msg))))
  /\ snd (fst (powershell.cmdOut h (powershell.init h) args)) <> None
  /\ snd (fst (powershell.cmdOut h (powershell.init h) args))
     <> Some powershell.ErrPowerShellNotFound
  /\ powershell.Stderr
       (powershell.cmd_Run h "" (["-NoProfile"; "-NonInteractive"] ++ args)) = ""
  /\ powershell.call_cmd_Run "" (["-NoProfile"; "-NonInteractive"] ++ args)
     ∈ snd (powershell.cmdOut h (powershell.init h) args).
Proof.
  intros Hlook Hstart.
  assert (powershell.init h = "") as -> by (unfold powershell.init; by rewrite Hlook).
  destruct (Hstart (["-NoProfile"; "-NonInteractive"] ++ args))
    as (Hout & Herr & msg & Hrun).
  assert (fst (powershell.cmdOut h "" args)
          = ("", Some (powershell.exec_err (powershell.exec_Error msg)))) as Hres
    by (unfold powershell.cmdOut; simpl in *; by rewrite Hout, Hrun).
  split; [done|]. split; [by exists msg|]. rewrite Hres. simpl.
  split; [done|]. split; [done|]. split; [done|].
  apply list_elem_of_further, list_elem_of_here.
Qed.

Lemma cmdOut_without_powershell_witness :
  exists msg,
    fst (powershell.cmdOut powershell.host_without_powershell
           (powershell.init powershell.host_without_powershell) ["Get-VM"])
    = ("", Some (powershell.exec_err (powershell.exec_Error msg))).
Proof.
  apply (cmdOut_without_powershell powershell.host_without_powershell ["Get-VM"]).
  - reflexivity.
  - intros args. simpl. split; [reflexivity|]. split; [reflexivity|].
    by exists "exec: no command".
Defined.

(** C2, as the specification words it, fails: on a host without
    powershell.exe, where os/exec cannot start a command without a path,
    the call does fail, but the error [cmdOut] returns is the one of
    os/exec, not [ErrPowerShellNotFound]. *)
Lemma cmdOut_not_ErrPowerShellNotFound :
  let h := powershell.host_without_powershell in
  powershell.exec_LookPath h "powershell.exe" = None
  /\ snd (fst (powershell.cmdOut h (powershell.init h) ["Get-VM"]))
     = Some (powershell.exec_err (powershell.exec_Error "exec: no command"))
  /\ snd (fst (powershell.cmdOut h (powershell.init h) ["Get-VM"]))
     <> Some powershell.ErrPowerShellNotFound.
Proof.
  intros h. split; [reflexivity|]. split; [reflexivity|discriminate].
Qed.

(** ** The registered default of --os *)

(** The value [init] registers as the default of --os holds no "=":
    [parseOSFlag] rejects it, and [Run] ends before a node is built. *)
Lemma Run_default_os_rejected (E : Env) (fl : Flags) (s : state) :
  osType fl = osType init ->
  Run E fl s
  = (Exit MalformedSpec reason_Usage "Invalid format for --os flag: linux", s).
Proof. intros Hos. unfold Run. rewrite Hos. reflexivity. Qed.

(** * Further properties *)

(** ** [parseOSFlag]: later pairs override earlier ones *)

Lemma index_insert (m : gmap string string) (k key v : string) :
  index (<[k := v]> m) key = if decide (k = key) then v else index m key.
Proof.
  unfold index. destruct (decide (k = key)) as [->|Hne].
  - by rewrite lookup_insert_eq.
  - by rewrite lookup_insert_ne.
Qed.

Lemma parseOSFlag_loop_last_value raw parts :
  forall osInfo osInfo',
    parseOSFlag_loop raw parts osInfo = inl osInfo' ->
    forall key, index osInfo' key = last_value key parts (index osInfo key).
Proof.
  induction parts as [|part parts IH]; intros m m' Hloop key; simpl in *.
  - by injection Hloop as ->.
  - destruct (strings.Split part "=") as [|k [|v [|]]]; try discriminate.
    rewrite (IH _ _ Hloop key). by rewrite index_insert.
Qed.

Lemma parseOSFlag_last_value (raw os version : string) :
  parseOSFlag raw = (os, version, None) ->
  let parts := strings.Split raw "," in
  os = last_value "os" parts "linux"
  /\ version
     = if bool_decide (os = "windows")
          && bool_decide (last_value "version" parts "" = "")
       then "2022" else last_value "version" parts "".
Proof.
  unfold parseOSFlag.
  destruct (parseOSFlag_loop _ _ _) as [m|e] eqn:Hloop; [|discriminate].
  pose proof (parseOSFlag_loop_last_value _ _ _ _ Hloop "os") as Hos.
  pose proof (parseOSFlag_loop_last_value _ _ _ _ Hloop "version") as Hver.
  change (index (<["os":="linux"]> (<["version":=""]> ∅)) "os") with "linux" in Hos.
  change (index (<["os":="linux"]> (<["version":=""]> ∅)) "version") with "" in Hver.
  simpl. rewrite <- Hos, <- Hver.
  destruct (bool_decide (index m "os" = "windows")
            && bool_decide (index m "version" = "")) eqn:Hdef.
  - rewrite !index_insert. simpl. intros [= <- <-]. split; [done|].
    by rewrite Hdef.
  - intros [= <- <-]. split; [done|]. by rewrite Hdef.
Qed.

(** Whenever [parseOSFlag] succeeds, the kind is the value of the last
    "os" pair ("linux" without one) and the version the value of the last
    "version" pair, "2022" standing in for an empty or missing version of
    a windows kind; pairs with other keys do not matter. *)
Theorem parseOSFlag_last_pair_wins (raw os version : string) :
  parseOSFlag raw = (os, version, None) ->
  let parts := strings.Split raw "," in
  os = last_value "os" parts "linux"
  /\ version
     = if bool_decide (os = "windows")
          && bool_decide (last_value "version" parts "" = "")
       then "2022" else last_value "version" parts "".
Proof. apply parseOSFlag_last_value. Qed.

Lemma parseOSFlag_last_pair_wins_witness :
  "windows" = last_value "os" (strings.Split "os=linux,arch=amd64,os=windows" ",") "linux"
  /\ "2022"
     = if bool_decide ("windows" = "windows")
          && bool_decide (last_value "version"
                            (strings.Split "os=linux,arch=amd64,os=windows" ",") "" = "")
       then "2022"
       else last_value "version" (strings.Split "os=linux,arch=amd64,os=windows" ",") "".
Proof.
  apply (parseOSFlag_last_pair_wins "os=linux,arch=amd64,os=windows" "windows" "2022").
  vm_compute. reflexivity.
Defined.

(** ** [parseOSFlag]: the values hold no separator *)

Lemma Split_tokens_count (s : string) (sep c : ascii) :
  Forall (fun tok => (strings.Count tok c <= strings.Count s c)%nat)
         (strings.Split s sep).
Proof.
  induction s as [|a s IH]; simpl.
  - by repeat constructor.
  - destruct (decide (a = sep)).
    + constructor; [simpl; lia|].
      eapply Forall_impl; [exact IH|]. intros tok Htok. simpl in *. lia.
    + destruct (strings.Split s sep) as [|tok toks]; simpl.
      * repeat constructor. simpl. lia.
      * inversion IH as [|? ? Htok Htoks]; subst. constructor.
        -- simpl. lia.
        -- eapply Forall_impl; [exact Htoks|]. intros t Ht. simpl in *. lia.
Qed.

Lemma Split_tokens_no_sep (s : string) (sep : ascii) :
  Forall (fun tok => strings.Count tok sep = 0%nat) (strings.Split s sep).
Proof.
  induction s as [|a s IH]; simpl.
  - by repeat constructor.
  - destruct (decide (a = sep)) as [->|Hne].
    + by constructor.
    + destruct (strings.Split s sep) as [|tok toks]; simpl.
      * repeat constructor. simpl. by rewrite decide_False.
      * inversion IH as [|? ? Htok Htoks]; subst. constructor; [|done].
        simpl. by rewrite decide_False.
Qed.

Lemma last_value_no_separator (key : string) (parts : list string) :
  Forall (fun part => strings.Count part "," = 0%nat) parts ->
  forall dflt, no_separator dflt -> no_separator (last_value key parts dflt).
Proof.
  induction 1 as [|part parts Hpart _ IH]; intros dflt Hd; simpl; [done|].
  pose proof (Split_tokens_no_sep part "=") as Heq.
  pose proof (Split_tokens_count part "=" ",") as Hcomma.
  destruct (strings.Split part "=") as [|k [|v [|]]]; try by apply IH.
  apply IH. destruct (decide (k = key)); [|done].
  inversion Heq as [|? ? _ Heq']; inversion Heq' as [|? ? Hv _]; subst.
  inversion Hcomma as [|? ? _ Hc']; inversion Hc' as [|? ? Hvc _]; subst.
  split; [lia|done].
Qed.

(** The kind and the version [parseOSFlag] returns hold neither "," nor
    "=": a value cannot carry one of the two separators. *)
Theorem parseOSFlag_values_without_separator (raw os version : string) :
  parseOSFlag raw = (os, version, None) ->
  no_separator os /\ no_separator version.
Proof.
  intros Hparse. apply parseOSFlag_last_value in Hparse as [Hos Hver].
  pose proof (Split_tokens_no_sep raw ",") as Hparts.
  assert (forall key dflt, no_separator dflt ->
            no_separator (last_value key (strings.Split raw ",") dflt)) as Hlast
    by (intros; by apply last_value_no_separator).
  split.
  - rewrite Hos. by apply Hlast.
  - rewrite Hver. case_match; [done|]. by apply Hlast.
Qed.

Lemma parseOSFlag_values_without_separator_witness :
  no_separator "windows" /\ no_separator "2019".
Proof.
  apply (parseOSFlag_values_without_separator "os=windows,version=2019").
  vm_compute. reflexivity.
Defined.

(** ** The commands over ssh *)

(** The session of [CmdOutSSH] is scoped: when [client.NewSession()]
    fails, the error is returned with an empty output and nothing is
    logged, run or closed; when it succeeds, the command line is run once
    and [session.Close()] is called once, as the last event, whatever the
    error of the command. *)
Theorem CmdOutSSH_session_scoped (client : powershell_ssh.Client) (script : string) :
  let evs := snd (powershell_ssh.CmdOutSSH client script) in
  match powershell_ssh.NewSession client with
  | Some err =>
      powershell_ssh.CmdOutSSH client script
      = (("", Some err), [powershell_ssh.call_NewSession])
  | None =>
      last evs = Some powershell_ssh.call_session_Close
      /\ powershell_ssh.sessions_closed evs = 1%nat
      /\ powershell_ssh.commands_run evs = [powershell_ssh.command_line script]
  end.
Proof.
  unfold powershell_ssh.CmdOutSSH.
  destruct (powershell_ssh.NewSession client); simpl; [done|].
  repeat split.
Qed.

(** ** The course of [Run] *)

Lemma parseOSFlag_error_strings (raw os version : string) (err : error) :
  parseOSFlag raw = (os, version, Some err) -> os = "" /\ version = "".
Proof.
  unfold parseOSFlag. destruct (parseOSFlag_loop _ _ _); [discriminate|].
  by intros [= <- <- _].
Qed.

Lemma hoare_pure {A} (phi : Prop) (P : state -> Prop) (m : M A)
    (Q : outcome A -> state -> Prop) :
  (phi -> hoare P m Q) -> hoare (fun s => phi /\ P s) m Q.
Proof. intros Hm s [Hphi Hs]. by apply Hm. Qed.

Lemma hoare_bind_ret {A B} (P : state -> Prop) (a : A) (k : A -> M B)
    (Q : outcome B -> state -> Prop) :
  hoare P (k a) Q -> hoare P (bind (ret a) k) Q.
Proof. intros Hk s Hs. exact (Hk s Hs). Qed.

Lemma hoare_bind_exit_Message {A B} (P : state -> Prop) kind r msg (k : A -> M B)
    (Q : outcome B -> state -> Prop) :
  (forall s, P s -> Q (Exit kind r msg) s) ->
  hoare P (bind (exit_Message kind r msg) k) Q.
Proof. intros HQ s Hs. exact (HQ s Hs). Qed.

Lemma new_events_emit (P : event -> Prop) (s0 s : state) (e : event) :
  extends_by P s0 s ->
  new_events s0 (snd (emit e s)) = new_events s0 s ++ [e].
Proof.
  intros (evs & Hevs & _). unfold new_events. simpl. rewrite Hevs.
  by rewrite <- app_assoc, !drop_app_length.
Qed.

Lemma calls_app (evs evs' : list event) : calls (evs ++ evs') = calls evs ++ calls evs'.
Proof. apply omap_app. Qed.

Section stages.
Variable P : event -> Prop.
Variable s0 : state.

Lemma stage_start : stage P s0 (loaded s0) [] s0.
Proof.
  repeat split; [apply extends_by_refl|].
  unfold new_events. by rewrite drop_all.
Qed.

Lemma stage_emit_state (ld : option config.ClusterConfig) (cs : list call)
    (e : event) (s : state) :
  P e -> stage P s0 ld cs s ->
  stage P s0 ld (cs ++ calls [e]) (snd (emit e s)).
Proof.
  intros He (Hst & Hld & Hext & Hcs). repeat split; [done..| |].
  - by apply (keeps_emit P s0 e He s).
  - by rewrite (new_events_emit P s0 s e Hext), calls_app, Hcs.
Qed.

Lemma stage_emit {B} (ld : option config.ClusterConfig) (cs : list call)
    (e : event) (Q : outcome B -> state -> Prop) :
  P e -> call_of e = None ->
  hoare (stage P s0 ld cs) (emit e) (post_bind (fun _ => stage P s0 ld cs) Q).
Proof.
  intros He Hcall s Hs. pose proof (stage_emit_state ld cs e s He Hs) as H.
  unfold calls in H. simpl in H. rewrite Hcall, app_nil_r in H. exact H.
Qed.

Lemma stage_call {B} (ld : option config.ClusterConfig) (cs : list call)
    (e : event) (c : call) (Q : outcome B -> state -> Prop) :
  P e -> call_of e = Some c ->
  hoare (stage P s0 ld cs) (emit e) (post_bind (fun _ => stage P s0 ld (cs ++ [c])) Q).
Proof.
  intros He Hcall s Hs. pose proof (stage_emit_state ld cs e s He Hs) as H.
  unfold calls in H. simpl in H. rewrite Hcall in H. exact H.
Qed.

Lemma stage_ret {A B} (ld : option config.ClusterConfig) (cs : list call) (a : A)
    (Q : outcome B -> state -> Prop) :
  hoare (stage P s0 ld cs) (ret a) (post_bind (fun _ => stage P s0 ld cs) Q).
Proof. by intros s Hs. Qed.

Lemma stage_put_cc {B} (ld : option config.ClusterConfig) (cs : list call)
    (cc : config.ClusterConfig) (Q : outcome B -> state -> Prop) :
  hoare (stage P s0 ld cs) (put_cc cc)
        (post_bind (fun _ => stage P s0 (Some cc) cs) Q).
Proof. by intros s (Hst & Hld & Hext & Hcs). Qed.

Lemma stage_get_cc {B} (cc : config.ClusterConfig) (cs : list call)
    (Q : outcome B -> state -> Prop) :
  hoare (stage P s0 (Some cc) cs) get_cc
        (post_bind (fun a s => a = cc /\ stage P s0 (Some cc) cs s) Q).
Proof.
  intros s (Hst & Hld & Hext & Hcs). unfold get_cc. rewrite Hld. simpl. done.
Qed.

Lemma stage_mustload_Healthy {B} (ld : option config.ClusterConfig) (cs : list call)
    (Q : outcome B -> state -> Prop) :
  hoare (stage P s0 ld cs) mustload_Healthy
        (post_bind (fun a s => a = stored s0
                               /\ stage P s0 (Some (stored s0)) cs s) Q).
Proof. intros s (Hst & Hld & Hext & Hcs). simpl. by rewrite Hst. Qed.

End stages.

Section course.
Variable E : Env.
Variable fl : Flags.
Variable s0 : state.

Local Abbreviation cc0 := (stored s0).
Local Abbreviation P := (Run_event E fl (stored s0)).
Local Abbreviation Q := (Run_post E fl s0).

Lemma Run_retried_nil : Run_retried E fl cc0 [].
Proof. intros cc r _ HAdd. by apply elem_of_nil in HAdd. Qed.

Lemma Run_retried_after_Add (cc : config.ClusterConfig) (r : option error)
    (rest : list call) :
  provisioned E fl cc0 = Some (cc, r) -> Retry ∉ rest ->
  Run_retried E fl cc0
    (([Add] ++ match r with Some _ => [Retry] | None => [] end) ++ rest).
Proof.
  intros Hprov Hrest cc2 r2 Hprov2 _. rewrite Hprov in Hprov2.
  injection Hprov2 as _ <-. destruct r as [err|]; simpl.
  - split; [done|]. intros _. apply list_elem_of_further, list_elem_of_here.
  - split; [|done]. intros [?|?]%elem_of_cons; done.
Qed.

Lemma post_Exit (ld : option config.ClusterConfig) (cs : list call)
    kind r msg (s : state) :
  stage P s0 ld cs s -> Run_exit E fl cc0 kind ->
  Run_calls (Exit kind r msg) cs -> Run_retried E fl cc0 cs ->
  Q (Exit kind r msg) s.
Proof.
  intros (Hst & Hld & Hext & Hcs) Hexit Hcalls Hretried.
  rewrite <- Hcs in Hcalls, Hretried.
  split; [done|]. split; [by split|]. by split.
Qed.

Lemma stage_FailureT_if (ld : option config.ClusterConfig) (c : bool) kind msg :
  (c = true -> P (out_FailureT msg)) ->
  (c = true -> out_FailureT_returns E = false -> Run_exit E fl cc0 kind) ->
  Run_calls (Exit kind reason_Usage msg) [] ->
  hoare (stage P s0 ld []) (if c then FailureT E kind msg else ret tt)
        (post_bind (fun _ => stage P s0 ld []) Q).
Proof.
  intros He Hexit Hcalls. destruct c; [|apply stage_ret].
  intros s Hs.
  pose proof (stage_emit P s0 ld [] _ Q (He eq_refl) eq_refl s Hs) as Hemit.
  unfold FailureT, bind. simpl in *.
  destruct (out_FailureT_returns E); simpl; [done|].
  eapply post_Exit;
    [exact Hemit|by apply Hexit|exact Hcalls|apply Run_retried_nil].
Qed.

Lemma stage_newNodeName :
  flags_accepted E fl ->
  hoare (stage P s0 (Some cc0) []) (newNodeName E (config.Nodes cc0))
        (post_bind (fun name s => allocated_name E (config.Nodes cc0) = Some name
                                  /\ stage P s0 (Some cc0) [] s) Q).
Proof.
  intros Hacc s Hs. unfold allocated_name.
  destruct (last (config.Nodes cc0)) as [lastNode|] eqn:Hlast.
  - rewrite (newNodeName_last E _ lastNode s Hlast).
    destruct (node_ID E (config.Name lastNode)) as [lastID [err|]] eqn:HID; simpl.
    + split; [done|].
      apply (stage_emit_state P s0 (Some cc0) []
               (out_ErrLn_lastID (GoInt.len (config.Nodes cc0)) err) s); [|done].
      simpl. split; [done|]. exists lastNode. by rewrite HID.
    + by split.
  - unfold newNodeName, last_Node, bind. rewrite Hlast. simpl.
    destruct Hs as (Hst & Hld & Hext & Hcs).
    split; [done|]. split; [|split; [exact Hcs|]].
    + split; [done|]. split; [done|]. by apply last_None.
    + rewrite Hcs. apply Run_retried_nil.
Qed.

Lemma stage_memory_block :
  hoare (stage P s0 (Some cc0) [])
    (if GoInt.len (config.Nodes cc0) =? 1 then
       (if bool_decide (viper_GetString_memory E = "") then
          put_cc (config.set_Memory 2200 cc0)
        else ret tt) ;;;
       cc <- get_cc ;;
       if negb (config.MultiNodeRequested cc) || cni_IsDisabled E cc then
         emit warnAboutMultiNodeCNI
       else ret tt
     else ret tt)
    (post_bind (fun _ => stage P s0 (Some (adjusted_config E cc0)) []) Q).
Proof.
  unfold adjusted_config.
  destruct (GoInt.len (config.Nodes cc0) =? 1) eqn:Hlen; simpl; [|apply stage_ret].
  apply Z.eqb_eq in Hlen.
  eapply hoare_bind.
  - instantiate (1 := fun _ => stage P s0
      (Some (if bool_decide (viper_GetString_memory E = "")
             then config.set_Memory 2200 cc0 else cc0)) []).
    destruct (bool_decide (viper_GetString_memory E = ""));
      [apply stage_put_cc|apply stage_ret].
  - intros ?. eapply hoare_bind; [apply stage_get_cc|].
    intros cc. apply hoare_pure. intros ->.
    destruct (negb _ || _) eqn:Hwarn; [|apply stage_ret].
    apply stage_emit; [|done]. simpl. split; [done|].
    unfold adjusted_config. rewrite Hlen. simpl.
    apply orb_true_iff in Hwarn as [Hm|Hc]; [left|by right].
    apply negb_true_iff in Hm.
    by destruct (bool_decide (viper_GetString_memory E = "")).
Qed.

Lemma stage_SaveProfile (cc : config.ClusterConfig) (r : option error)
    (cs : list call) :
  provisioned E fl cc0 = Some (cc, r) ->
  hoare (stage P s0 (Some cc) cs) (SaveProfile E (config.cc_Name cc) cc)
    (post_bind
       (fun err s =>
          err = config_SaveProfile E (config.cc_Name cc) cc
          /\ extends_by P s0 s /\ loaded s = Some cc
          /\ stored s = match err with Some _ => cc0 | None => cc end
          /\ calls (new_events s0 s) = cs ++ [Save]) Q).
Proof.
  intros Hprov s Hs. unfold SaveProfile, bind.
  assert (P (call_SaveProfile (config.cc_Name cc) cc)) as He by (simpl; eauto).
  pose proof (stage_call P s0 _ cs _ Save Q He eq_refl s Hs)
    as (Hst & Hld & Hext & Hcs).
  simpl in *. by destruct (config_SaveProfile E (config.cc_Name cc) cc).
Qed.

Lemma Run_course : hoare (stage P s0 (loaded s0) []) (Run E fl) Q.
Proof.
  unfold Run.
  destruct (parseOSFlag (osType fl)) as [[os ver] err] eqn:Hparse.
  destruct err as [e|].
  { apply hoare_bind_exit_Message. intros s Hs. eapply post_Exit; [exact Hs| |done|apply Run_retried_nil].
    destruct (parseOSFlag_error_strings _ _ _ _ Hparse) as [-> ->]. by exists e. }
  apply hoare_bind_ret.
  destruct (validateOS os) as [e|] eqn:Hos.
  { apply hoare_bind_exit_Message. intros s Hs. eapply post_Exit; [exact Hs| |done|apply Run_retried_nil].
    by exists os, ver, e. }
  apply hoare_bind_ret.
  assert (ver <> "" -> validateWindowsOSVersion E ver = None
          \/ exists e, validateWindowsOSVersion E ver = Some e) as Hcases.
  { intros _. destruct (validateWindowsOSVersion E ver); eauto. }
  destruct (bool_decide (ver <> "")) eqn:Hver;
    [apply bool_decide_eq_true_1 in Hver; destruct (Hcases Hver) as [Hwin|[e Hwin]];
     rewrite Hwin
    |apply bool_decide_eq_false_1 in Hver].
  2: { apply hoare_bind_exit_Message. intros s Hs.
       eapply post_Exit; [exact Hs| |done|apply Run_retried_nil]. by exists os, ver, e. }
  all: apply hoare_bind_ret.
  all: destruct (bool_decide (os = "windows") && cpNode fl) eqn:Hrole.
  all: try (apply andb_true_iff in Hrole as [Hw Hcp];
            apply bool_decide_eq_true_1 in Hw; subst os).
  1: { apply hoare_bind_exit_Message. intros s Hs.
       eapply post_Exit; [exact Hs| |done|apply Run_retried_nil]. by exists ver. }
  2: { exfalso. apply Hver. by eapply parseOSFlag_windows_version. }
  all: apply hoare_bind_ret.
  all: assert (flags_accepted E fl) as Hacc
    by (exists os, ver; repeat split; try done;
        intros ->; rewrite bool_decide_eq_true_2 in Hrole by done;
        by destruct (cpNode fl)).
  all: clear Hparse Hos Hcases Hver Hrole.
  all: try clear Hwin.
  all: eapply hoare_bind; [apply stage_mustload_Healthy|].
  all: intros cc; apply hoare_pure; intros ->.
  all: eapply hoare_bind;
    [apply stage_FailureT_if; [simpl; auto|by intros ? ?|done]|intros ?].
  all: eapply hoare_bind;
    [apply stage_FailureT_if;
       [intros [? ?%negb_true_iff]%andb_true_iff; simpl; auto
       |intros [? ?%negb_true_iff]%andb_true_iff ?; by repeat split
       |done]
    |intros ?].
  all: eapply hoare_bind; [by apply stage_newNodeName|].
  all: intros name; apply hoare_pure; intros Hname.
  all: eapply hoare_bind; [apply stage_emit; by simpl|intros ?].
  all: eapply hoare_bind; [apply stage_memory_block|intros ?].
  all: eapply hoare_bind; [apply stage_emit; by simpl|intros ?].
  all: eapply hoare_bind; [apply stage_get_cc|].
  all: intros cc; apply hoare_pure; intros ->.
  all: assert (planned_node E fl cc0 = Some (new_node fl cc0 name)) as Hplan
    by (unfold planned_node; by rewrite Hname).
  all: eapply hoare_bind; [by eapply (stage_call _ _ _ _ _ Add)|intros ?].
  all: destruct (node_Add E (adjusted_config E cc0) (new_node fl cc0 name)
                   (deleteNodeOnFailure fl)) as [cc' r] eqn:HAdd.
  all: assert (provisioned E fl cc0 = Some (cc', r)) as Hprov
    by (unfold provisioned; rewrite Hplan; simpl; by rewrite HAdd).
  all: change (node_Add E (adjusted_config E cc0) _ (deleteNodeOnFailure fl))
    with (node_Add E (adjusted_config E cc0) (new_node fl cc0 name)
            (deleteNodeOnFailure fl)).
  all: rewrite HAdd.
  all: eapply hoare_bind; [apply stage_put_cc|intros ?].
  all: eapply hoare_bind with
    (R := fun _ s =>
            (forall err, r = Some err ->
               maybeDeleteAndRetry E cc' (new_node fl cc0 name) err = None)
            /\ stage P s0 (Some cc')
                 ([Add] ++ match r with Some _ => [Retry] | None => [] end) s).
  1,3: destruct r as [err|]; [|by intros s Hs].
  1,2: eapply hoare_bind; [by eapply (stage_call _ _ _ _ _ Retry)|intros ?].
  1,2: destruct (maybeDeleteAndRetry E cc' (new_node fl cc0 name) err)
         as [err'|] eqn:Hretry.
  1,3: change (maybeDeleteAndRetry E cc' _ err)
         with (maybeDeleteAndRetry E cc' (new_node fl cc0 name) err);
       rewrite Hretry; intros s Hs;
       (eapply post_Exit;
          [exact Hs| |done
          |intros ? ? Hp _; rewrite Hprov in Hp; injection Hp as _ <-;
           split; [done|]; intros _; simpl;
           apply list_elem_of_further, list_elem_of_here]);
       split; [done|]; by exists (new_node fl cc0 name), cc', err, err'.
  1,2: change (maybeDeleteAndRetry E cc' _ err)
         with (maybeDeleteAndRetry E cc' (new_node fl cc0 name) err);
       rewrite Hretry; intros s Hs; simpl; split; [|done];
       by intros ? [= <-].
  all: intros ?; apply hoare_pure; intros Hretry.
  all: eapply hoare_bind; [apply stage_get_cc|].
  all: intros cc; apply hoare_pure; intros ->.
  all: eapply hoare_bind; [by eapply stage_SaveProfile|].
  all: intros err; apply hoare_pure; intros ->.
  all: assert (forall cs,
         cs = ([Add] ++ match r with Some _ => [Retry] | None => [] end) ++ [Save] ->
                 cs = [Add; Save] \/ cs = [Add; Retry; Save]) as Hshape
    by (intros cs ->; destruct r; auto).
  all: destruct (config_SaveProfile E (config.cc_Name cc') cc') as [err|] eqn:Hsave.
  all: assert (Run_retried E fl cc0
                 (([Add] ++ match r with Some _ => [Retry] | None => [] end)
                  ++ [Save])) as Hretried
    by (apply (Run_retried_after_Add cc' r [Save]); [done|];
        by intros [?|?%elem_of_nil]%elem_of_cons).
  1,3: intros s (Hext & Hld & Hst & Hcs); simpl; split; [done|]; split;
       [split; [done|]; split; [done|]; by exists cc', r, err
       |split; [by apply Hshape|by rewrite Hcs]].
  all: apply hoare_bind_ret.
  all: assert (P (out_Step_Success name (config.cc_Name cc'))) as He
    by (simpl; eauto).
  all: intros s (Hext & Hld & Hst & Hcs).
  all: split; [by apply (keeps_emit P s0)|].
  all: split.
  2,4: rewrite (new_events_emit P s0 s _ Hext), calls_app, Hcs; simpl;
       rewrite app_nil_r; split; [by apply Hshape|done].
  all: simpl; split; [done|]; exists cc', r; repeat split; try done.
  all: intros n err Hn Hr; rewrite Hplan in Hn; injection Hn as <-; by apply Hretry.
Qed.

End course.

Lemma Run_post_holds (E : Env) (fl : Flags) (s : state) :
  Run_post E fl s (fst (Run E fl s)) (snd (Run E fl s)).
Proof. apply Run_course, stage_start. Qed.

Lemma Run_new_events (E : Env) (fl : Flags) (s : state) :
  Forall (Run_event E fl (stored s)) (new_events s (snd (Run E fl s))).
Proof.
  destruct (Run_post_holds E fl s) as [(evs & Hevs & HP) _].
  unfold new_events. by rewrite Hevs, drop_app_length.
Qed.

Lemma Run_new_event (E : Env) (fl : Flags) (s : state) (e : event) :
  e ∈ new_events s (snd (Run E fl s)) -> Run_event E fl (stored s) e.
Proof.
  intros He. pose proof (Run_new_events E fl s) as HP.
  rewrite Forall_forall in HP. by apply HP.
Qed.

(** [Run] completes only when the flags are accepted, [node.Add]
    succeeds or the recovery does, and the profile can be saved; the
    profile it has stored then is the configuration [node.Add] has left
    behind [cc], called on the loaded configuration with the adjusted
    memory and on the new node. *)
Theorem Run_done_stores_node_Add_config (E : Env) (fl : Flags) (s : state) :
  fst (Run E fl s) = Done tt ->
  flags_accepted E fl
  /\ exists n cc r,
       planned_node E fl (stored s) = Some n
       /\ node_Add E (adjusted_config E (stored s)) n (deleteNodeOnFailure fl)
          = (cc, r)
       /\ (forall err, r = Some err -> maybeDeleteAndRetry E cc n err = None)
       /\ config_SaveProfile E (config.cc_Name cc) cc = None
       /\ stored (snd (Run E fl s)) = cc
       /\ loaded (snd (Run E fl s)) = Some cc.
Proof.
  intros Hdone. destruct (Run_post_holds E fl s) as (_ & Hend & _).
  rewrite Hdone in Hend.
  destruct Hend as (Hacc & cc & r & Hprov & Hst & Hld & Hsave & Hretry).
  split; [done|]. unfold provisioned in Hprov.
  destruct (planned_node E fl (stored s)) as [n|] eqn:Hplan; [|discriminate].
  simpl in Hprov. injection Hprov as Hprov.
  exists n, cc, r. repeat split; try done. intros err Hr. by apply Hretry.
Qed.

Lemma Run_done_stores_node_Add_config_witness :
  flags_accepted sample_env linux_flags
  /\ exists n cc r,
       planned_node sample_env linux_flags (stored (start_state single_node_cluster))
       = Some n
       /\ node_Add sample_env
            (adjusted_config sample_env (stored (start_state single_node_cluster)))
            n (deleteNodeOnFailure linux_flags)
          = (cc, r)
       /\ (forall err, r = Some err -> maybeDeleteAndRetry sample_env cc n err = None)
       /\ config_SaveProfile sample_env (config.cc_Name cc) cc = None
       /\ stored (snd (Run sample_env linux_flags (start_state single_node_cluster)))
          = cc
       /\ loaded (snd (Run sample_env linux_flags (start_state single_node_cluster)))
          = Some cc.
Proof.
  apply (Run_done_stores_node_Add_config sample_env linux_flags
           (start_state single_node_cluster)).
  vm_compute. reflexivity.
Defined.

(** [Run] panics only on a configuration without nodes (the index of the
    last node is out of range); and on such a configuration it neither
    completes nor calls [node.Add]. *)
Theorem Run_panics_only_without_nodes (E : Env) (fl : Flags) (s : state) :
  (fst (Run E fl s) = Panic -> config.Nodes (stored s) = [])
  /\ (config.Nodes (stored s) = [] ->
      fst (Run E fl s) <> Done tt /\ nodes_added_by_Run E fl s = []).
Proof.
  split.
  - intros Hpanic. destruct (Run_post_holds E fl s) as (_ & Hend & _).
    rewrite Hpanic in Hend. by destruct Hend as (_ & _ & ?).
  - intros Hnil.
    assert (planned_node E fl (stored s) = None) as Hplan
      by (unfold planned_node, allocated_name; by rewrite Hnil).
    split.
    + intros Hdone. destruct (Run_post_holds E fl s) as (_ & Hend & _).
      rewrite Hdone in Hend. destruct Hend as (_ & cc & r & Hprov & _).
      unfold provisioned in Hprov. by rewrite Hplan in Hprov.
    + unfold nodes_added_by_Run, added_nodes.
      pose proof (Run_new_events E fl s) as HP.
      induction HP as [|e evs He _ IH]; [done|].
      simpl. destruct e; try done. destruct He as (_ & Hn & _). congruence.
Qed.

Lemma Run_panics_only_without_nodes_witness :
  fst (Run sample_env linux_flags
         (start_state (config.set_Nodes [] single_node_cluster))) <> Done tt
  /\ nodes_added_by_Run sample_env linux_flags
       (start_state (config.set_Nodes [] single_node_cluster)) = [].
Proof.
  apply (proj2 (Run_panics_only_without_nodes sample_env linux_flags
                  (start_state (config.set_Nodes [] single_node_cluster)))).
  reflexivity.
Defined.

(** The node [Run] hands to [node.Add] carries the allocated name, the
    roles of the flags and the Kubernetes version of the loaded
    configuration, and [node.Add] gets the value of --delete-on-failure. *)
Theorem Run_node_Add_node (E : Env) (fl : Flags) (s : state)
    (cc : config.ClusterConfig) (n : config.Node) (delOnFail : bool) :
  call_node_Add cc n delOnFail ∈ new_events s (snd (Run E fl s)) ->
  allocated_name E (config.Nodes (stored s)) = Some (config.Name n)
  /\ config.Worker n = workerNode fl
  /\ config.ControlPlane n = cpNode fl
  /\ config.KubernetesVersion n
     = config.KubernetesConfig_KubernetesVersion (stored s)
  /\ delOnFail = deleteNodeOnFailure fl.
Proof.
  intros He. apply Run_new_event in He as (_ & Hplan & ->).
  unfold planned_node in Hplan.
  destruct (allocated_name E (config.Nodes (stored s))) as [name|]; [|discriminate].
  by injection Hplan as <-.
Qed.

Lemma Run_node_Add_node_witness :
  allocated_name sample_env (config.Nodes single_node_cluster) = Some "m02"
  /\ config.Worker worker_m02 = workerNode linux_flags
  /\ config.ControlPlane worker_m02 = cpNode linux_flags
  /\ config.KubernetesVersion worker_m02 = "v1.31.0"
  /\ false = deleteNodeOnFailure linux_flags.
Proof.
  apply (Run_node_Add_node sample_env linux_flags (start_state single_node_cluster)
           (config.set_Memory 2200 single_node_cluster) worker_m02 false).
  vm_compute. do 3 apply list_elem_of_further. apply list_elem_of_here.
Defined.

(** The configuration [Run] hands to [node.Add] is the loaded one, but
    for the memory: it is lowered to 2200 exactly when the cluster has one
    node and --memory is unset; nodes, name and driver are never
    touched. *)
Theorem Run_node_Add_config (E : Env) (fl : Flags) (s : state)
    (cc : config.ClusterConfig) (n : config.Node) (delOnFail : bool) :
  call_node_Add cc n delOnFail ∈ new_events s (snd (Run E fl s)) ->
  cc = config.set_Memory (config.Memory cc) (stored s)
  /\ config.Memory cc
     = if (GoInt.len (config.Nodes (stored s)) =? 1)
          && bool_decide (viper_GetString_memory E = "")
       then 2200 else config.Memory (stored s).
Proof.
  intros He. apply Run_new_event in He as (-> & _ & _).
  unfold adjusted_config. destruct (stored s) as [nm dr mem mn kv ns]. simpl.
  by destruct ((GoInt.len ns =? 1) && bool_decide (viper_GetString_memory E = "")).
Qed.

Lemma Run_node_Add_config_witness :
  config.set_Memory 2200 single_node_cluster
  = config.set_Memory (config.Memory (config.set_Memory 2200 single_node_cluster))
      (stored (start_state single_node_cluster))
  /\ config.Memory (config.set_Memory 2200 single_node_cluster)
     = if (GoInt.len (config.Nodes (stored (start_state single_node_cluster))) =? 1)
          && bool_decide (viper_GetString_memory sample_env = "")
       then 2200 else config.Memory (stored (start_state single_node_cluster)).
Proof.
  apply (Run_node_Add_config sample_env linux_flags (start_state single_node_cluster)
           (config.set_Memory 2200 single_node_cluster) worker_m02 false).
  vm_compute. do 3 apply list_elem_of_further. apply list_elem_of_here.
Defined.

(** The advisory about CNI is printed only when the cluster has one node,
    and then only if multi-node was not requested or the CNI of the
    configuration handed to [node.Add] is disabled. *)
Theorem Run_warns_on_first_addition (E : Env) (fl : Flags) (s : state) :
  warnAboutMultiNodeCNI ∈ new_events s (snd (Run E fl s)) ->
  length (config.Nodes (stored s)) = 1%nat
  /\ (config.MultiNodeRequested (stored s) = false
      \/ cni_IsDisabled E (adjusted_config E (stored s)) = true).
Proof.
  intros He. apply Run_new_event in He as [Hlen Hwhy].
  split; [|done]. unfold GoInt.len in Hlen. lia.
Qed.

Lemma Run_warns_on_first_addition_witness :
  length (config.Nodes single_node_cluster) = 1%nat
  /\ (config.MultiNodeRequested single_node_cluster = false
      \/ cni_IsDisabled sample_env (adjusted_config sample_env single_node_cluster)
         = true).
Proof.
  apply (Run_warns_on_first_addition sample_env linux_flags
           (start_state single_node_cluster)).
  vm_compute. apply list_elem_of_further, list_elem_of_here.
Defined.

(** [maybeDeleteAndRetry] is called exactly when [node.Add] has been
    called and has returned an error, with the configuration [node.Add]
    has left and the node it was given, and the flag --delete-on-failure
    plays no part in that: the equivalence holds whatever its value. *)
Theorem Run_retries_on_node_Add_error (E : Env) (fl : Flags) (s : state)
    (cc : config.ClusterConfig) (n : config.Node) (err : error) :
  (call_maybeDeleteAndRetry cc n err ∈ new_events s (snd (Run E fl s))
   <-> call_node_Add (adjusted_config E (stored s)) n (deleteNodeOnFailure fl)
         ∈ new_events s (snd (Run E fl s))
       /\ node_Add E (adjusted_config E (stored s)) n (deleteNodeOnFailure fl)
          = (cc, Some err))
  /\ (call_maybeDeleteAndRetry cc n err ∈ new_events s (snd (Run E fl s)) ->
      planned_node E fl (stored s) = Some n).
Proof.
  destruct (Run_post_holds E fl s) as (_ & Hend & Hcalls & Hretried).
  pose proof (Run_new_event E fl s) as Hevent.
  assert (forall c, c ∈ calls (new_events s (snd (Run E fl s))) ->
            exists e, e ∈ new_events s (snd (Run E fl s)) /\ call_of e = Some c)
    as Hcall_event by (intros c Hc; by apply list_elem_of_omap in Hc).
  assert (forall e c, e ∈ new_events s (snd (Run E fl s)) -> call_of e = Some c ->
            c ∈ calls (new_events s (snd (Run E fl s))))
    as Hevent_call by (intros e c He Hc; apply list_elem_of_omap; by exists e).
  assert (Retry ∈ calls (new_events s (snd (Run E fl s))) ->
          Add ∈ calls (new_events s (snd (Run E fl s)))) as HAdd.
  { intros HR. destruct (fst (Run E fl s)) as [u|kind r msg|]; simpl in Hcalls.
    - destruct Hcalls as [Hcs|Hcs]; rewrite Hcs in *; apply list_elem_of_here.
    - destruct kind; try (rewrite Hcalls in HR; by apply elem_of_nil in HR).
      + rewrite Hcalls. apply list_elem_of_here.
      + destruct Hcalls as [Hcs|Hcs]; rewrite Hcs in *; apply list_elem_of_here.
    - rewrite Hcalls in HR. by apply elem_of_nil in HR. }
  split; [split|].
  - intros He. destruct (Hevent _ He) as [Hplan Hprov].
    assert (node_Add E (adjusted_config E (stored s)) n (deleteNodeOnFailure fl)
            = (cc, Some err)) as Hres
      by (unfold provisioned in Hprov; rewrite Hplan in Hprov; simpl in Hprov;
          congruence).
    split; [|done].
    destruct (Hcall_event Add (HAdd (Hevent_call _ Retry He eq_refl)))
      as (e & He' & Hc).
    destruct e; try discriminate.
    destruct (Hevent _ He') as (-> & Hplan' & ->).
    assert (n0 = n) as -> by congruence. done.
  - intros [He Hres]. destruct (Hevent _ He) as (_ & Hplan & _).
    assert (provisioned E fl (stored s) = Some (cc, Some err)) as Hprov
      by (unfold provisioned; rewrite Hplan; simpl; by rewrite Hres).
    assert (Retry ∈ calls (new_events s (snd (Run E fl s)))) as HR
      by (apply (Hretried cc (Some err) Hprov (Hevent_call _ Add He eq_refl)); done).
    destruct (Hcall_event Retry HR) as (e & He' & Hc).
    destruct e; try discriminate.
    destruct (Hevent _ He') as [Hplan' Hprov'].
    assert (n0 = n /\ cc0 = cc /\ err0 = err) as (-> & -> & ->)
      by (repeat split; congruence).
    done.
  - intros He. by destruct (Hevent _ He) as [Hplan _].
Qed.

(** The calls that change the cluster or the stored profile, in order:
    none when the run ends before [node.Add]; [node.Add] once, then
    [maybeDeleteAndRetry] at most once, then [config.SaveProfile] once,
    when the run completes or ends on the failure to save; [node.Add] and
    the retry, and no save, when it ends on the failure of the retry. *)
Theorem Run_call_sequence (E : Env) (fl : Flags) (s : state) :
  Run_calls (fst (Run E fl s)) (calls (new_events s (snd (Run E fl s)))).
Proof. by destruct (Run_post_holds E fl s) as (_ & _ & Hcalls & _). Qed.

Lemma Run_exit_holds (E : Env) (fl : Flags) (s : state)
    (kind : ErrorKind) (r : reason) (msg : string) :
  fst (Run E fl s) = Exit kind r msg -> Run_exit E fl (stored s) kind.
Proof.
  intros Hexit. destruct (Run_post_holds E fl s) as (_ & Hend & _).
  rewrite Hexit in Hend. by destruct Hend.
Qed.

(** Every failure kind has its cause: when [Run] ends the process with
    the kind [kind], the condition [Run_exit] gives for that kind holds
    (for the failure to add the node: [node.Add] and the retry both
    returned an error; for the failure to save: [config.SaveProfile]
    did). *)
Theorem Run_exit_cause (E : Env) (fl : Flags) (s : state)
    (kind : ErrorKind) (r : reason) (msg : string) :
  fst (Run E fl s) = Exit kind r msg -> Run_exit E fl (stored s) kind.
Proof. apply Run_exit_holds. Qed.

(** [Run] ends with [UnsupportedRole] exactly for a windows spec whose
    version is accepted together with --control-plane. *)
Theorem Run_UnsupportedRole_iff (E : Env) (fl : Flags) (s : state) :
  (exists r msg, fst (Run E fl s) = Exit UnsupportedRole r msg)
  <-> exists version,
        parseOSFlag (osType fl) = ("windows", version, None)
        /\ validateWindowsOSVersion E version = None
        /\ cpNode fl = true.
Proof.
  split.
  - intros (r & msg & Hexit). exact (Run_exit_holds E fl s _ r msg Hexit).
  - intros (version & Hparse & Hver & Hcp). do 2 eexists.
    by rewrite (Run_windows_control_plane E fl s version).
Qed.

Lemma Run_UnsupportedRole_iff_witness :
  exists r msg,
    fst (Run sample_env windows_control_plane_flags (start_state single_node_cluster))
    = Exit UnsupportedRole r msg.
Proof.
  apply (proj2 (Run_UnsupportedRole_iff sample_env windows_control_plane_flags
                  (start_state single_node_cluster))).
  exists "2022". repeat split; reflexivity.
Defined.

Lemma Run_retries_on_node_Add_error_witness :
  deleteNodeOnFailure linux_flags = false
  /\ call_maybeDeleteAndRetry (config.set_Memory 2200 single_node_cluster) worker_m02
       (Errorf "starting node: timed out")
     ∈ new_events (start_state single_node_cluster)
         (snd (Run failing_add_env linux_flags (start_state single_node_cluster))).
Proof.
  split; [reflexivity|].
  apply (proj2 (proj1 (Run_retries_on_node_Add_error failing_add_env linux_flags
                         (start_state single_node_cluster)
                         (config.set_Memory 2200 single_node_cluster) worker_m02
                         (Errorf "starting node: timed out")))).
  split; [|reflexivity].
  vm_compute. do 3 apply list_elem_of_further. apply list_elem_of_here.
Defined.

Lemma Run_exit_cause_witness :
  Run_exit failing_add_env init single_node_cluster MalformedSpec.
Proof.
  apply (Run_exit_cause failing_add_env init (start_state single_node_cluster)
           MalformedSpec reason_Usage "Invalid format for --os flag: linux").
  reflexivity.
Defined.

(** [Run] completes whenever nothing stands in its way: the flags are
    accepted, [out.FailureT] returns, the loaded configuration has a node,
    [node.Add] succeeds or the recovery does, and the profile can be
    saved; the stored profile then is the configuration [node.Add] has
    left. *)
Theorem Run_completes (E : Env) (fl : Flags) (s : state)
    (n : config.Node) (cc : config.ClusterConfig) (r : option error) :
  flags_accepted E fl ->
  out_FailureT_returns E = true ->
  planned_node E fl (stored s) = Some n ->
  node_Add E (adjusted_config E (stored s)) n (deleteNodeOnFailure fl) = (cc, r) ->
  (forall err, r = Some err -> maybeDeleteAndRetry E cc n err = None) ->
  config_SaveProfile E (config.cc_Name cc) cc = None ->
  fst (Run E fl s) = Done tt /\ stored (snd (Run E fl s)) = cc.
Proof.
  intros (os & ver & Hparse & Hos & Hver & Hrole) Hret Hplan HAdd Hretry Hsave.
  assert (provisioned E fl (stored s) = Some (cc, r)) as Hprov
    by (unfold provisioned; rewrite Hplan; simpl; by rewrite HAdd).
  destruct (Run_post_holds E fl s) as (_ & Hend & _).
  destruct (fst (Run E fl s)) as [[]|kind rs msg|]; simpl in Hend.
  - split; [done|]. destruct Hend as (_ & cc' & r' & Hprov' & Hst & _).
    congruence.
  - exfalso. destruct Hend as [_ Hexit]. destruct kind; simpl in Hexit.
    + destruct Hexit as (e & He). congruence.
    + destruct Hexit as (os' & ver' & e & He & Hos'). congruence.
    + destruct Hexit as (os' & ver' & e & He & _ & Hne & Hwin).
      assert (ver' = ver) as -> by congruence. rewrite Hver in Hwin; done.
    + destruct Hexit as (ver' & He & _ & Hcp).
      assert (os = "windows") as Hw by congruence. rewrite Hrole in Hcp; done.
    + destruct Hexit as (_ & _ & Hno). congruence.
    + destruct Hexit as (_ & _ & _ & Hno). congruence.
    + destruct Hexit as (_ & n' & cc' & err & err' & Hn' & Hprov' & Hre).
      assert (n' = n /\ cc' = cc /\ r = Some err) as (-> & -> & Hr)
        by (repeat split; congruence).
      rewrite (Hretry err Hr) in Hre. done.
    + destruct Hexit as (_ & cc' & r' & err & Hprov' & Hsv).
      assert (cc' = cc) as -> by congruence. congruence.
  - exfalso. destruct Hend as (_ & _ & Hnil).
    unfold planned_node, allocated_name in Hplan. by rewrite Hnil in Hplan.
Qed.

Lemma Run_completes_witness :
  fst (Run failing_add_env linux_flags (start_state single_node_cluster)) = Done tt
  /\ stored (snd (Run failing_add_env linux_flags (start_state single_node_cluster)))
     = config.set_Memory 2200 single_node_cluster.
Proof.
  apply (Run_completes failing_add_env linux_flags (start_state single_node_cluster)
           worker_m02 (config.set_Memory 2200 single_node_cluster)
           (Some (Errorf "starting node: timed out"))); try reflexivity.
  exists "linux", "". split; [reflexivity|]. split; [reflexivity|].
  split; [intros H; by destruct H|reflexivity].
Defined.

(** A failure reported through [exit.Message] before the cluster is
    loaded leaves the state as it was: nothing is loaded, printed or
    stored. *)
Theorem Run_exit_before_load_leaves_state (E : Env) (fl : Flags) (s : state)
    (kind : ErrorKind) (r : reason) (msg : string) :
  fst (Run E fl s) = Exit kind r msg -> before_load kind ->
  snd (Run E fl s) = s.
Proof. apply Run_rejects_before_load. Qed.

Lemma Run_exit_before_load_leaves_state_witness :
  snd (Run sample_env windows_control_plane_flags (start_state single_node_cluster))
  = start_state single_node_cluster.
Proof.
  apply (Run_exit_before_load_leaves_state sample_env windows_control_plane_flags
           (start_state single_node_cluster) UnsupportedRole reason_Usage
           "Windows node cannot be used as control-plane nodes.").
  - vm_compute. reflexivity.
  - unfold before_load. tauto.
Defined.

Lemma Run_default_os_rejected_witness :
  Run sample_env init (start_state single_node_cluster)
  = (Exit MalformedSpec reason_Usage "Invalid format for --os flag: linux",
     start_state single_node_cluster).
Proof.
  apply (Run_default_os_rejected sample_env init (start_state single_node_cluster)).
  reflexivity.
Defined.

(** ** [cmdSSH]: the arguments and the script *)

Lemma Split_without_sep (s : string) (sep : ascii) :
  strings.Count s sep = 0%nat -> strings.Split s sep = [s].
Proof.
  induction s as [|c s IH]; simpl; [done|].
  destruct (decide (c = sep)); [done|]. simpl. intros H. by rewrite IH.
Qed.

Lemma Split_append_sep (s rest : string) (sep : ascii) :
  strings.Count s sep = 0%nat ->
  strings.Split (s +:+ String sep rest) sep = s :: strings.Split rest sep.
Proof.
  induction s as [|c s IH]; simpl.
  - intros _. by rewrite decide_True.
  - destruct (decide (c = sep)); [done|]. simpl. intros H. by rewrite IH.
Qed.

Lemma Split_Join (args : list string) (sep : ascii) :
  args <> [] ->
  Forall (fun a => strings.Count a sep = 0%nat) args ->
  strings.Split (strings.Join args (String sep "")) sep = args.
Proof.
  intros Hne Hargs. induction Hargs as [|a args Ha Hargs IH]; [done|].
  destruct args as [|b args].
  - simpl. by apply Split_without_sep.
  - change (strings.Join (a :: b :: args) (String sep ""))
      with (a +:+ String sep (strings.Join (b :: args) (String sep ""))).
    rewrite Split_append_sep by done. by rewrite IH.
Qed.

Lemma length_append (s t : string) :
  String.length (s +:+ t) = (String.length s + String.length t)%nat.
Proof.
  induction s as [|c s IH]; [done|].
  change (S (String.length (s +:+ t)) = S (String.length s + String.length t)).
  by rewrite IH.
Qed.

Lemma append_inv_tail (s s' t : string) : s +:+ t = s' +:+ t -> s = s'.
Proof.
  intros H.
  assert (String.length s = String.length s') as Hlen.
  { apply (f_equal String.length) in H. rewrite !length_append in H. lia. } revert s' H Hlen.
  induction s as [|c s IH]; intros [|c' s'] H Hlen; try done.
  change (String c (s +:+ t) = String c' (s' +:+ t)) in H.
  injection H as -> H. f_equal. apply IH; [done|]. simpl in Hlen. lia.
Qed.

Lemma command_line_inj (script script' : string) :
  powershell_ssh.command_line script = powershell_ssh.command_line script' ->
  script = script'.
Proof.
  unfold powershell_ssh.command_line. intros H.
  do 2 apply String.app_inj in H. by apply append_inv_tail in H.
Qed.

(** [cmdSSH] sees its arguments only through their join by a space: it
    does what it does on the one-argument list holding the join, so the
    boundaries of arguments that hold spaces are lost. For non-empty
    argument lists without a space in any argument, the command line that
    is run determines the arguments. *)
Theorem cmdSSH_arguments (client : powershell_ssh.Client) (args args' : list string) :
  powershell_ssh.cmdSSH client args
  = powershell_ssh.cmdSSH client [strings.Join args " "]
  /\ (powershell_ssh.NewSession client = None ->
      powershell_ssh.commands_run (snd (powershell_ssh.cmdSSH client args))
      = [powershell_ssh.command_line (strings.Join args " ")])
  /\ (args <> [] -> args' <> [] -> Forall no_space args -> Forall no_space args' ->
      powershell_ssh.command_line (strings.Join args " ")
      = powershell_ssh.command_line (strings.Join args' " ") ->
      args = args').
Proof.
  split; [reflexivity|]. split.
  - intros Hopen. unfold powershell_ssh.cmdSSH, powershell_ssh.CmdOutSSH.
    by rewrite Hopen.
  - intros Hne Hne' Hargs Hargs' Hcmd. apply command_line_inj in Hcmd.
    rewrite <- (Split_Join args " " Hne Hargs).
    rewrite <- (Split_Join args' " " Hne' Hargs'). by rewrite Hcmd.
Qed.

Lemma cmdSSH_arguments_witness :
  powershell_ssh.commands_run
    (snd (powershell_ssh.cmdSSH (powershell_ssh.client_fixed "" "" None)
            ["Get-VM"; "minikube"]))
  = [powershell_ssh.command_line "Get-VM minikube"].
Proof.
  apply (proj1 (proj2 (cmdSSH_arguments (powershell_ssh.client_fixed "" "" None)
                         ["Get-VM"; "minikube"] []))).
  reflexivity.
Defined.



(** [node.Add] is called only on accepted flags: the flag value parses,
    the kind is linux or windows, a version that is given is supported,
    and the node of a windows spec is not a control-plane node. *)
Theorem Run_node_Add_only_when_accepted (E : Env) (fl : Flags) (s : state)
    (cc : config.ClusterConfig) (n : config.Node) (delOnFail : bool) :
  call_node_Add cc n delOnFail ∈ new_events s (snd (Run E fl s)) ->
  exists os version,
    parseOSFlag (osType fl) = (os, version, None)
    /\ (os = "linux" \/ os = "windows")
    /\ (version <> "" -> validateWindowsOSVersion E version = None)
    /\ (os = "windows" -> config.ControlPlane n = false).
Proof.
  intros He.
  assert (config.ControlPlane n = cpNode fl) as Hcp
    by (apply Run_new_event in He as (_ & Hplan & _); unfold planned_node in Hplan;
        destruct (allocated_name E (config.Nodes (stored s))); [|discriminate];
        by injection Hplan as <-).
  assert (Add ∈ calls (new_events s (snd (Run E fl s)))) as Hcall
    by (apply list_elem_of_omap; by eexists).
  destruct (Run_post_holds E fl s) as (_ & Hend & Hcalls & _).
  assert (flags_accepted E fl) as (os & ver & Hparse & Hos & Hver & Hrole).
  { destruct (fst (Run E fl s)) as [u|kind r msg|]; simpl in *.
    - by destruct Hend.
    - destruct Hend as [_ Hexit].
      destruct kind; simpl in *; try by destruct Hexit.
      all: rewrite Hcalls in Hcall; by apply elem_of_nil in Hcall.
    - rewrite Hcalls in Hcall. by apply elem_of_nil in Hcall. }
  exists os, ver. split; [done|]. split; [by apply validateOS_None_iff|].
  split; [done|]. rewrite Hcp. done.
Qed.

Lemma Run_node_Add_only_when_accepted_witness :
  exists os version,
    parseOSFlag (osType linux_flags) = (os, version, None)
    /\ (os = "linux" \/ os = "windows")
    /\ (version <> "" -> validateWindowsOSVersion sample_env version = None)
    /\ (os = "windows" -> config.ControlPlane worker_m02 = false).
Proof.
  apply (Run_node_Add_only_when_accepted sample_env linux_flags
           (start_state single_node_cluster)
           (config.set_Memory 2200 single_node_cluster) worker_m02 false).
  vm_compute. do 3 apply list_elem_of_further. apply list_elem_of_here.
Defined.
